(** * Resume_To_Website: the heuristic extraction pipeline of the Express server

    A shallow embedding of the pure functions of the server
    ([normalizeHeader], [extractSectionsByLines], [cleanArray],
    [parseWorkExperience], [parseEducation], [parseSkills],
    [buildRelevantResumeText], [extractContactInfo], the pattern match of
    [gptOrganizeResume]) and of the section lookups and the key-patching
    code of the [/api/parse] handler, followed by the properties the
    specification states about them and by further properties of the code.

    Conventions of the embedding.
    - A JavaScript string is the list of its UTF-16 code units ([list N]);
      [length] is the [.length] of the string.
    - An object that is only read by key ([sectionIndices]) is the [gmap]
      of its own properties together with what a plain object inherits from
      [Object.prototype]: a read at an inherited name that is not an own
      property yields the inherited member, not [undefined].  Of the
      inherited names, [constructor] is the one that a normalized header can
      be.
    - A [Set] is the list of its elements in insertion order.
    - An object that is enumerated ([Object.keys], [Object.entries], the JSON
      objects of the structuring service) is the list of its own properties
      in insertion order.
    - [String.prototype.toLowerCase] is a parameter of the development; the
      one fact used about it is its action on ASCII strings. *)

From Stdlib Require Import String Ascii Sorted.
From stdpp Require Import gmap list.

Local Open Scope N_scope.

Abbreviation jsstring := (list N) (only parsing).

(** ** String literals *)

Module Literal.

(** Code units of a literal written in UTF-8: sequences of one, two and
    three bytes give one code unit, a sequence of four bytes a surrogate
    pair. *)
Fixpoint utf16 (bs : list N) : jsstring :=
  match bs with
  | [] => []
  | b0 :: r0 =>
      if b0 <? 128 then b0 :: utf16 r0
      else
        match r0 with
        | [] => [b0]
        | b1 :: r1 =>
            if b0 <? 224 then ((b0 mod 32) * 64 + b1 mod 64) :: utf16 r1
            else
              match r1 with
              | [] => [b0; b1]
              | b2 :: r2 =>
                  if b0 <? 240 then
                    ((b0 mod 16) * 4096 + (b1 mod 64) * 64 + b2 mod 64) :: utf16 r2
                  else
                    match r2 with
                    | [] => [b0; b1; b2]
                    | b3 :: r3 =>
                        let cp := (b0 mod 8) * 262144 + (b1 mod 64) * 4096
                                  + (b2 mod 64) * 64 + b3 mod 64 in
                        (55296 + (cp - 65536) / 1024)
                          :: (56320 + (cp - 65536) mod 1024) :: utf16 r3
                    end
              end
        end
  end.

Definition bytes (s : string) : list N :=
  List.map (fun a => N_of_ascii a) (list_ascii_of_string s).

(** The escape [\n] of a JavaScript literal: a backslash (92) followed by
    [n] (110) stands for the line feed (10). *)
Fixpoint unescape (bs : list N) : list N :=
  match bs with
  | [] => []
  | b :: r =>
      match r with
      | b' :: r' =>
          if (b =? 92) && (b' =? 110) then 10 :: unescape r' else b :: unescape r
      | [] => [b]
      end
  end.

Definition js (s : string) : jsstring := utf16 (unescape (bytes s)).

End Literal.

Arguments Literal.js s%_string.

Abbreviation js := Literal.js.

(** ** Primitives of [String.prototype] and [Array.prototype] *)

Module Js.

(** The class [\s], which is also the set [trim] removes. *)
Definition isWhiteSpace (c : N) : bool :=
  existsb (N.eqb c)
    [9; 10; 11; 12; 13; 32; 160; 5760; 8232; 8233; 8239; 8287; 12288; 65279]
  || ((8192 <=? c) && (c <=? 8202)).

Definition isUpper (c : N) : bool := (65 <=? c) && (c <=? 90).
Definition isLower (c : N) : bool := (97 <=? c) && (c <=? 122).
Definition isDigit (c : N) : bool := (48 <=? c) && (c <=? 57).
Definition isAscii (c : N) : bool := c <? 128.

Fixpoint trimStart (s : jsstring) : jsstring :=
  match s with
  | [] => []
  | c :: r => if isWhiteSpace c then trimStart r else s
  end.

Fixpoint trimEnd (s : jsstring) : jsstring :=
  match s with
  | [] => []
  | c :: r =>
      match trimEnd r with
      | [] => if isWhiteSpace c then [] else [c]
      | r' => c :: r'
      end
  end.

Definition trim (s : jsstring) : jsstring := trimEnd (trimStart s).

(** [s.startsWith(p)] *)
Fixpoint startsWith (s p : jsstring) : bool :=
  match p, s with
  | [], _ => true
  | _ :: _, [] => false
  | a :: p', b :: s' => (a =? b) && startsWith s' p'
  end.

(** [s.includes(sub)] *)
Fixpoint includes (s sub : jsstring) : bool :=
  startsWith s sub ||
  match s with
  | [] => false
  | _ :: r => includes r sub
  end.

(** [s.split(sep)] for a separator of one code unit. *)
Fixpoint split (sep : N) (s : jsstring) : list jsstring :=
  match s with
  | [] => [[]]
  | c :: r =>
      if c =? sep then [] :: split sep r
      else
        match split sep r with
        | h :: t => (c :: h) :: t
        | [] => [[c]]
        end
  end.

(** [parts.join(sep)] *)
Fixpoint join (sep : jsstring) (parts : list jsstring) : jsstring :=
  match parts with
  | [] => []
  | [p] => p
  | p :: rest => p ++ sep ++ join sep rest
  end.

(** [l.slice(from, to)] for [0 <= from]. *)
Definition slice {A} (l : list A) (from to : nat) : list A :=
  take (to - from)%nat (drop from l).

Definition isEmpty (s : jsstring) : bool :=
  match s with [] => true | _ => false end.

Definition eqb (a b : jsstring) : bool := bool_decide (a = b).

(** A string that does not begin with white space. *)
Definition startsClean (s : jsstring) : bool :=
  match s with
  | [] => true
  | c :: _ => negb (isWhiteSpace c)
  end.

End Js.

(** ** Objects that are enumerated *)

Module Obj.

(** Own properties in insertion order, which is the order of [Object.keys]
    and [Object.entries] as long as no key is a canonical array index (such
    keys are enumerated first).  None of the handler's section names, of the
    required keys or of the skill categories (they begin with a capital) is
    one. *)
Definition t (V : Type) : Type := list (jsstring * V).

(** The own property [k] of [o], if there is one.  For a key that
    [Object.prototype] does not define ([inherited k = false], as for
    every key that the handler and the patch loop use) this is the read
    [o[k]], with [None] for [undefined]; the read at any key is [read]. *)
Fixpoint get {V} (o : t V) (k : jsstring) : option V :=
  match o with
  | [] => None
  | (k', v) :: r => if Js.eqb k' k then Some v else get r k
  end.

(** [Object.keys(o)] *)
Definition keys {V} (o : t V) : list jsstring := List.map fst o.

(** The property names of [Object.prototype], which every object literal
    and every object of [JSON.parse] inherits. *)
Definition prototypeNames : list jsstring :=
  [js "constructor"; js "__defineGetter__"; js "__defineSetter__";
   js "hasOwnProperty"; js "__lookupGetter__"; js "__lookupSetter__";
   js "isPrototypeOf"; js "propertyIsEnumerable"; js "toString";
   js "valueOf"; js "__proto__"; js "toLocaleString"].

Definition inherited (k : jsstring) : bool := existsb (Js.eqb k) prototypeNames.

(** What the read [o[k]] yields: an own property shadows the prototype. *)
Inductive reading (V : Type) : Type :=
  | Undefined
  | Own (v : V)
  | Inherited.

Arguments Undefined {V}.
Arguments Own {V} v.
Arguments Inherited {V}.

Definition read {V} (o : t V) (k : jsstring) : reading V :=
  match get o k with
  | Some v => Own v
  | None => if inherited k then Inherited else Undefined
  end.

(** [o[k] = v]: an existing property keeps its place, and a name that was
    only inherited becomes an own property (of the inherited names only
    [__proto__], which no caller assigns to, is an accessor). *)
Fixpoint set {V} (o : t V) (k : jsstring) (v : V) : t V :=
  match o with
  | [] => [(k, v)]
  | (k', v') :: r => if Js.eqb k' k then (k', v) :: r else (k', v') :: set r k v
  end.

End Obj.

(** ** Sets of strings *)

Module JsSet.

(** The elements in insertion order, each once. *)
Definition t : Type := list jsstring.

(** [s.has(x)] *)
Definition has (s : t) (x : jsstring) : bool := existsb (Js.eqb x) s.

(** [s.add(x)] *)
Definition add (s : t) (x : jsstring) : t := if has s x then s else s ++ [x].

(** [new Set(l)] *)
Definition ofArray (l : list jsstring) : t := foldl add [] l.

End JsSet.

(** ** [normalizeHeader] and [extractSectionsByLines] *)

Section Segmenter.

Variable toLowerCase : jsstring -> jsstring.

(** [.replace(/&/g, 'and')] *)
Definition replaceAmpersand (s : jsstring) : jsstring :=
  flat_map (fun c => if c =? 38 then js "and" else [c]) s.

(** [.replace(/[^a-z0-9 ]/g, '')] *)
Definition isKept (c : N) : bool := Js.isLower c || Js.isDigit c || (c =? 32).

Definition stripOthers (s : jsstring) : jsstring := List.filter isKept s.

(** [.replace(/\s+/g, ' ')]; [inRun] says that the previous code unit was
    white space, whose run has already been replaced. *)
Fixpoint collapseSpaces (inRun : bool) (s : jsstring) : jsstring :=
  match s with
  | [] => []
  | c :: r =>
      if Js.isWhiteSpace c
      then (if inRun then collapseSpaces true r else 32 :: collapseSpaces true r)
      else c :: collapseSpaces false r
  end.

Definition normalizeHeader (str : jsstring) : jsstring :=
  Js.trim (collapseSpaces false (stripOthers (replaceAmpersand (toLowerCase str)))).

(** Strings over the alphabet that [stripOthers] keeps. *)
Definition kept (s : jsstring) : bool := forallb isKept s.

(** White space in normal form: single spaces only; [inRun] as in
    [collapseSpaces]. *)
Fixpoint spaced (inRun : bool) (s : jsstring) : bool :=
  match s with
  | [] => true
  | c :: r =>
      if Js.isWhiteSpace c then negb inRun && (c =? 32) && spaced true r
      else spaced false r
  end.

(** The test of the inner [forEach]: exact or partial match. *)
Definition headerMatches (normalizedLine section : jsstring) : bool :=
  Js.eqb normalizedLine section
  || Js.includes normalizedLine section
  || Js.includes section normalizedLine.

(** [text.split('\n').map(l => l.trim())] *)
Definition linesOf (text : jsstring) : list jsstring :=
  List.map Js.trim (Js.split 10 text).

(** In the words of the specification: the index, counted from [idx], of the
    first line whose normalized form equals, contains or is contained in the
    normalized candidate. *)
Fixpoint firstMatch (section : jsstring) (lines : list jsstring) (idx : nat)
    : option nat :=
  match lines with
  | [] => None
  | line :: rest =>
      if headerMatches (normalizeHeader line) section then Some idx
      else firstMatch section rest (S idx)
  end.

(** What [sectionIndices[section]] reads.  [sectionIndices] is an object
    literal: at a name of [Object.prototype] that has no own property the
    read gives the inherited member.  Every [section] is a normalized header,
    and of the names of [Object.prototype] only [constructor] is one, so the
    inherited member is the function [Object]. *)
Inductive slot : Type :=
  | Recorded (idx : nat)
  | InheritedFunction
  | NotFound.

Definition readIndex (sectionIndices : gmap (list N) nat) (section : jsstring)
    : slot :=
  match sectionIndices !! section with
  | Some idx => Recorded idx
  | None => if Obj.inherited section then InheritedFunction else NotFound
  end.

(** The inner [forEach] over the normalized section names, for one line:
    the index is stored only where the read is [undefined]. *)
Definition markLine (idx : nat) (normalizedLine : jsstring)
    (sections : list jsstring) (sectionIndices : gmap (list N) nat)
    : gmap (list N) nat :=
  foldl (fun acc section =>
           if headerMatches normalizedLine section
           then match readIndex acc section with
                | NotFound => <[section := idx]> acc
                | Recorded _ | InheritedFunction => acc
                end
           else acc)
        sectionIndices sections.

(** The outer [forEach] over the lines, from line number [idx] on. *)
Fixpoint scanLines (lines : list jsstring) (idx : nat) (sections : list jsstring)
    (sectionIndices : gmap (list N) nat) : gmap (list N) nat :=
  match lines with
  | [] => sectionIndices
  | line :: rest =>
      scanLines rest (S idx) sections
        (markLine idx (normalizeHeader line) sections sectionIndices)
  end.

(** The [for (let j = i + 1; ...)] loop for a recorded [startIdx]: the
    start of the first later candidate that lies after [startIdx], else
    [endIdx].  Where [nextIdx] is the inherited function, [nextIdx > startIdx]
    compares [NaN] with a number and is false. *)
Fixpoint findEnd (later : list jsstring) (sectionIndices : gmap (list N) nat)
    (startIdx endIdx : nat) : nat :=
  match later with
  | [] => endIdx
  | next :: rest =>
      match readIndex sectionIndices next with
      | Recorded nextIdx =>
          if (startIdx <? nextIdx)%nat then nextIdx
          else findEnd rest sectionIndices startIdx endIdx
      | InheritedFunction | NotFound =>
          findEnd rest sectionIndices startIdx endIdx
      end
  end.

(** The body of the second [forEach].  Where [startIdx] is the inherited
    function, [startIdx !== undefined] holds; no [nextIdx > startIdx] does
    (a number against [NaN], or the function against itself), so [endIdx]
    stays [lines.length]; and [startIdx + 1] is a string that [slice] takes
    for [0]: the property is the whole text. *)
Definition sectionText (lines : list jsstring) (sectionIndices : gmap (list N) nat)
    (section : jsstring) (later : list jsstring) : jsstring :=
  match readIndex sectionIndices section with
  | Recorded startIdx =>
      let endIdx := findEnd later sectionIndices startIdx (length lines) in
      Js.trim (Js.join [10] (Js.slice lines (S startIdx) endIdx))
  | InheritedFunction =>
      Js.trim (Js.join [10] (Js.slice lines 0 (length lines)))
  | NotFound => []
  end.

(** The second [forEach]: one property per normalized name. *)
Fixpoint fillSections (lines : list jsstring) (sectionIndices : gmap (list N) nat)
    (names : list jsstring) (result : Obj.t jsstring) : Obj.t jsstring :=
  match names with
  | [] => result
  | section :: later =>
      fillSections lines sectionIndices later
        (Obj.set result section (sectionText lines sectionIndices section later))
  end.

Definition sectionIndicesOf (text : jsstring) (sectionNames : list jsstring)
    : gmap (list N) nat :=
  scanLines (linesOf text) 0 (List.map normalizeHeader sectionNames) ∅.

Definition extractSectionsByLines (text : jsstring) (sectionNames : list jsstring)
    : Obj.t jsstring :=
  let normalizedSectionNames := List.map normalizeHeader sectionNames in
  fillSections (linesOf text) (sectionIndicesOf text sectionNames)
    normalizedSectionNames [].

End Segmenter.

(** The candidate names that the [/api/parse] handler passes. *)
Definition sectionNames : list jsstring :=
  [js "Work Experience"; js "Professional Experience";
   js "Founder & Product Experience"; js "Research Experience";
   js "Experience"; js "Employment"; js "Positions"; js "Appointments";
   js "Education"; js "Academic Background"; js "Academic Experience";
   js "Skills"; js "Skills & Interests"; js "Technical Skills";
   js "Core Competencies"; js "Laboratory & Fields";
   js "Programming Languages"; js "Technologies"; js "Tools";
   js "Frameworks"; js "Interests"].

(** Lower-casing of the ASCII letters, the part of [toLowerCase] that the
    ECMAScript definition fixes for ASCII input. *)
Definition lowerAscii (c : N) : N := if Js.isUpper c then c + 32 else c.

Definition toLowerAscii (s : jsstring) : jsstring := List.map lowerAscii s.

(** The code units of an ASCII header that [normalizeHeader] does not drop:
    letters, digits, the space and the ampersand, which becomes [and].  Every
    other code unit, punctuation among them, is dropped. *)
Definition isSignificant (c : N) : bool :=
  Js.isUpper c || Js.isLower c || Js.isDigit c || (c =? 32) || (c =? 38).

(** A header without its punctuation. *)
Definition significant (s : jsstring) : jsstring := List.filter isSignificant s.

(** The first three steps of [normalizeHeader] on an ASCII string. *)
Definition core (s : jsstring) : jsstring :=
  stripOthers (replaceAmpersand (toLowerAscii s)).

(** ** [cleanArray] *)

(** On an array of strings: trim, drop the falsy (empty) ones, deduplicate;
    [Array.from] lists the set in insertion order.  Every caller passes an
    array of strings. *)
Definition cleanArray (arr : list jsstring) : list jsstring :=
  JsSet.ofArray (List.filter (fun x => negb (Js.isEmpty x)) (List.map Js.trim arr)).

(** [text.split('\n').filter(line => line.trim())] *)
Definition nonBlankLines (text : jsstring) : list jsstring :=
  List.filter (fun line => negb (Js.isEmpty (Js.trim line))) (Js.split 10 text).

(** ** [parseWorkExperience] *)

Module WorkExperience.

(** The object [currentExp]: a property is [None] while it is not set. *)
Record entry : Type := Entry {
  title : option jsstring;
  organization : option jsstring;
  dates : option jsstring;
  location : option jsstring;
  highlights : option (list jsstring);
  summary : option jsstring
}.

Definition empty : entry := Entry None None None None None None.

Definition isSet {A} (o : option A) : bool :=
  match o with Some _ => true | None => false end.

(** [Object.keys(currentExp).length > 0] *)
Definition hasKeys (e : entry) : bool :=
  isSet (title e) || isSet (organization e) || isSet (dates e)
  || isSet (location e) || isSet (highlights e) || isSet (summary e).

Definition roleNouns : list jsstring :=
  [js "Engineer"; js "Developer"; js "Manager"; js "Director"; js "Lead";
   js "Analyst"; js "Consultant"; js "Specialist"; js "Coordinator";
   js "Assistant"; js "Intern"].

(** The class [[a-zA-Z\s&]]. *)
Definition inTitleClass (c : N) : bool :=
  Js.isLower c || Js.isUpper c || Js.isWhiteSpace c || (c =? 38).

(** After the first letter: one or more code units of the class, then a role
    noun; [consumed] says that one has been read. *)
Fixpoint titleRest (consumed : bool) (s : jsstring) : bool :=
  (consumed && existsb (Js.startsWith s) roleNouns)
  || match s with
     | [] => false
     | c :: r => inTitleClass c && titleRest true r
     end.

(** [/^[A-Z][a-zA-Z\s&]+(?:Engineer|...|Intern)/.test(line)] *)
Definition isTitleLine (line : jsstring) : bool :=
  match line with
  | [] => false
  | c :: r => Js.isUpper c && titleRest false r
  end.

(** The longest prefix without [)] and what follows it. *)
Fixpoint untilClose (s : jsstring) : jsstring * jsstring :=
  match s with
  | [] => ([], [])
  | c :: r =>
      if c =? 41 then ([], s)
      else let '(body, rest) := untilClose r in (c :: body, rest)
  end.

(** [line.match(/\(([^)]+)\)/)]: the first group of the leftmost match. *)
Fixpoint matchParenthesized (s : jsstring) : option jsstring :=
  match s with
  | [] => None
  | c :: r =>
      if c =? 40 then
        let '(body, rest) := untilClose r in
        if negb (Js.isEmpty body) && Js.startsWith rest [41] then Some body
        else matchParenthesized r
      else matchParenthesized r
  end.

(** [/\d{4}/.test(line)] *)
Fixpoint hasYear (s : jsstring) : bool :=
  match s with
  | [] => false
  | _ :: r =>
      ((length (take 4 s) =? 4)%nat && forallb Js.isDigit (take 4 s)) || hasYear r
  end.

(** [/[A-Z]{2}$/.test(line)] *)
Definition endsWithState (s : jsstring) : bool :=
  match rev s with
  | b :: a :: _ => Js.isUpper a && Js.isUpper b
  | _ => false
  end.

Definition isDatesLine (line : jsstring) : bool :=
  hasYear line
  && (Js.includes line (js "Present") || Js.includes line (js "Current")
      || Js.includes line (js "-") || Js.includes line (js "to")).

Definition isBulletLine (line : jsstring) : bool :=
  Js.startsWith line (js "•") || Js.startsWith line (js "-")
  || Js.startsWith line (js "*").

(** [!currentExp.summary] *)
Definition summaryUnset (e : entry) : bool :=
  match summary e with
  | None => true
  | Some s => Js.isEmpty s
  end.

(** The loop state: [experiences] and [currentExp]. *)
Definition state : Type := (list entry * entry)%type.

(** One iteration of the [for] loop. *)
Definition step (st : state) (rawLine : jsstring) : state :=
  let '(experiences, cur) := st in
  let line := Js.trim rawLine in
  if isTitleLine line then
    ((if hasKeys cur then experiences ++ [cur] else experiences),
     Entry (Some line) None None None None None)
  else if Js.includes line (js "(") && Js.includes line (js ")") then
    match matchParenthesized line with
    | Some company =>
        (experiences,
         Entry (title cur) (Some company) (dates cur) (location cur)
               (highlights cur) (summary cur))
    | None => st
    end
  else if isDatesLine line then
    (experiences,
     Entry (title cur) (organization cur) (Some line) (location cur)
           (highlights cur) (summary cur))
  else if Js.includes line (js ",") && endsWithState line then
    (experiences,
     Entry (title cur) (organization cur) (dates cur) (Some line)
           (highlights cur) (summary cur))
  else if isBulletLine line then
    (experiences,
     Entry (title cur) (organization cur) (dates cur) (location cur)
           (Some (default [] (highlights cur) ++ [Js.trim (drop 1 line)]))
           (summary cur))
  else if (20 <? length line)%nat && summaryUnset cur then
    (experiences,
     Entry (title cur) (organization cur) (dates cur) (location cur)
           (highlights cur) (Some line))
  else st.

(** [{...exp, highlights: cleanArray(exp.highlights || [])}] *)
Definition finish (e : entry) : entry :=
  Entry (title e) (organization e) (dates e) (location e)
        (Some (cleanArray (default [] (highlights e)))) (summary e).

Definition parseWorkExperience (text : jsstring) : list entry :=
  if Js.isEmpty text then []
  else
    let '(experiences, cur) := foldl step ([], empty) (nonBlankLines text) in
    List.map finish (if hasKeys cur then experiences ++ [cur] else experiences).

End WorkExperience.

(** ** [parseSkills] *)

Module Skills.

(** The class [[a-zA-Z\s]]. *)
Definition inHeaderClass (c : N) : bool :=
  Js.isLower c || Js.isUpper c || Js.isWhiteSpace c.

(** [/^[A-Z][a-zA-Z\s]+:$/.test(trimmed)]: the colon is not in the class, so
    the line is a capital, one or more code units of the class, and a final
    colon. *)
Definition isCategoryHeader (trimmed : jsstring) : bool :=
  match trimmed with
  | [] => false
  | c :: r =>
      Js.isUpper c
      && match rev r with
         | last :: middle =>
             (last =? 58) && negb (Js.isEmpty middle) && forallb inHeaderClass middle
         | [] => false
         end
  end.

(** [trimmed.replace(':', '')]: the first colon is removed. *)
Fixpoint removeFirstColon (s : jsstring) : jsstring :=
  match s with
  | [] => []
  | c :: r => if c =? 58 then r else c :: removeFirstColon r
  end.

(** [.replace(/^[•\-]\s*/, '')] *)
Definition stripBullet (s : jsstring) : jsstring :=
  match s with
  | c :: r => if (c =? 8226) || (c =? 45) then Js.trimStart r else s
  | [] => []
  end.

(** [if (!skills[cat]) skills[cat] = []; skills[cat].push(...items)] *)
Definition pushSkills (skills : Obj.t (list jsstring)) (category : jsstring)
    (items : list jsstring) : Obj.t (list jsstring) :=
  let skills1 :=
    match Obj.get skills category with
    | None => Obj.set skills category []
    | Some _ => skills
    end in
  Obj.set skills1 category (default [] (Obj.get skills1 category) ++ items).

(** The loop state: [skills] and [currentCategory]. *)
Definition state : Type := (Obj.t (list jsstring) * jsstring)%type.

(** One iteration of the [for ... of] loop. *)
Definition step (st : state) (line : jsstring) : state :=
  let '(skills, currentCategory) := st in
  let trimmed := Js.trim line in
  if isCategoryHeader trimmed then
    let category := removeFirstColon trimmed in
    (Obj.set skills category [], category)
  else if Js.includes trimmed (js ",") || Js.startsWith trimmed (js "•")
          || Js.startsWith trimmed (js "-") then
    let skillList :=
      List.filter (fun x => (0 <? length x)%nat)
        (List.map Js.trim (Js.split 44 (stripBullet trimmed))) in
    (pushSkills skills currentCategory skillList, currentCategory)
  else if (0 <? length trimmed)%nat && (length trimmed <? 50)%nat then
    (pushSkills skills currentCategory [trimmed], currentCategory)
  else st.

Definition parseSkills (text : jsstring) : Obj.t (list jsstring) :=
  if Js.isEmpty text then []
  else
    let '(skills, _) := foldl step ([], js "Other") (nonBlankLines text) in
    List.map (fun '(category, list) => (category, cleanArray list)) skills.

End Skills.

(** ** [buildRelevantResumeText] *)

Module Digest.

Local Open Scope Z_scope.

Definition len (s : jsstring) : Z := Z.of_nat (length s).

(** The callback of [.filter] with the set [seen]; the entries kept so far
    are in [kept]. *)
Definition keepEntry (st : JsSet.t * list (jsstring * jsstring))
    (e : jsstring * jsstring) : JsSet.t * list (jsstring * jsstring) :=
  let '(seen, kept) := st in
  let '(k, v) := e in
  if negb (Js.isEmpty v) && (0 <? len (Js.trim v))
     && negb (JsSet.has seen (Js.trim v))
  then (JsSet.add seen (Js.trim v), kept ++ [e])
  else st.

Definition uniqueNonEmpty (entries : list (jsstring * jsstring))
    : list (jsstring * jsstring) :=
  snd (foldl keepEntry ([], []) entries).

(** [sort((a, b) => b[1].length - a[1].length)]: the sort is stable, so an
    entry goes before the first entry that is not longer than it. *)
Fixpoint insertByLength (e : jsstring * jsstring)
    (sorted : list (jsstring * jsstring)) : list (jsstring * jsstring) :=
  match sorted with
  | [] => [e]
  | x :: r =>
      if len (snd e) <? len (snd x) then x :: insertByLength e r
      else e :: sorted
  end.

Definition sortByLength (entries : list (jsstring * jsstring))
    : list (jsstring * jsstring) :=
  foldr insertByLength [] entries.

(** The [for ... of] loop.  The result lists, for every block pushed to
    [included], the section name and the content that the block carries. *)
Fixpoint accumulate (sectionEntries : list (jsstring * jsstring))
    (totalLength maxTotalLength : Z) : list (jsstring * jsstring) :=
  match sectionEntries with
  | [] => []
  | (name, content) :: rest =>
      if totalLength + len content >? maxTotalLength then
        let allowed := maxTotalLength - totalLength in
        if allowed >? 200 then [(name, take (Z.to_nat allowed) content)]
        else []
      else
        (name, content) :: accumulate rest (totalLength + len content) maxTotalLength
  end.

(** [sections] is given by [Object.entries(sections)]. *)
Definition includedSections (sections : Obj.t jsstring) (maxTotalLength : Z)
    : list (jsstring * jsstring) :=
  accumulate (sortByLength (uniqueNonEmpty sections)) 0 maxTotalLength.

(** [`=== ${name} ===\n${content}`] *)
Definition block (e : jsstring * jsstring) : jsstring :=
  js "=== " ++ fst e ++ js " ===\n" ++ snd e.

Definition buildRelevantResumeText (sections : Obj.t jsstring)
    (maxTotalLength : Z) : jsstring :=
  Js.join (js "\n\n") (List.map block (includedSections sections maxTotalLength)).

(** The characters of section content in a list of included blocks, and the
    characters of the delimiters around them. *)
Definition contentLength (included : list (jsstring * jsstring)) : Z :=
  foldr (fun e acc => len (snd e) + acc) 0 included.

Definition delimiterLength (included : list (jsstring * jsstring)) : Z :=
  foldr (fun e acc => len (fst e) + 9 + acc) 0 included
  + Z.max 0 (2 * (Z.of_nat (length included) - 1)).

End Digest.

(** ** The result assembly of the [/api/parse] handler *)

Module Assembler.

#[local] Set Warnings "-register-all".

(** JavaScript values as [JSON.parse] produces them, and [undefined] for a
    property that is read but absent.  Of a number only its being zero is
    observed. *)
Inductive value : Type :=
| JUndefined
| JNull
| JBool (b : bool)
| JNum (n : Z)
| JStr (s : list N)
| JArr (items : list value)
| JObj (props : list (list N * value)).

(** The object [parsed] of the handler: contact strings and the results of
    the three parsers (two arrays and an object). *)
Record parsed : Type := Parsed {
  name : jsstring;
  email : jsstring;
  phone : jsstring;
  location : jsstring;
  work_experience : list value;
  education : list value;
  skills : Obj.t value
}.

Definition requiredKeys : list jsstring :=
  [js "profile"; js "education"; js "positions"; js "publications";
   js "projects"; js "skills"; js "awards"].

(** [x || ''] on a string. *)
Definition orEmpty (x : jsstring) : jsstring := if Js.isEmpty x then [] else x.

Definition parsedFallback (p : parsed) : Obj.t value :=
  [(js "profile",
    JObj [(js "name", JStr (orEmpty (name p)));
          (js "email", JStr (orEmpty (email p)));
          (js "phone", JStr (orEmpty (phone p)));
          (js "location", JStr (orEmpty (location p)));
          (js "summary", JStr []);
          (js "social", JArr [])]);
   (js "education", JArr (education p));
   (js "positions", JArr (work_experience p));
   (js "publications", JArr []);
   (js "projects", JArr []);
   (js "skills", JObj (skills p));
   (js "awards", JArr [])].

(** [o[key]] *)
Definition prop (o : Obj.t value) (key : jsstring) : value :=
  default JUndefined (Obj.get o key).

(** [!v] *)
Definition falsy (v : value) : bool :=
  match v with
  | JUndefined | JNull | JBool false | JNum 0 | JStr [] => true
  | _ => false
  end.

(** [v == null] *)
Definition nullish (v : value) : bool :=
  match v with
  | JUndefined | JNull => true
  | _ => false
  end.

(** [Object.keys(v).length === 0], for [v] that is not nullish. *)
Definition noKeys (v : value) : bool :=
  match v with
  | JStr s => Js.isEmpty s
  | JArr items => match items with [] => true | _ => false end
  | JObj props => match props with [] => true | _ => false end
  | _ => true
  end.

(** [v == null || (Array.isArray(v) && v.length === 0)
     || (typeof v === 'object' && Object.keys(v).length === 0)] *)
Definition needsFallback (v : value) : bool :=
  match v with
  | JUndefined | JNull | JArr [] | JObj [] => true
  | _ => false
  end.

(** [v.length === 0], for [v] that is not nullish. *)
Definition lengthIsZero (v : value) : bool :=
  match v with
  | JStr s => Js.isEmpty s
  | JArr items => match items with [] => true | _ => false end
  | JObj props =>
      match Obj.get props (js "length") with
      | Some (JNum 0) => true
      | _ => false
      end
  | _ => false
  end.

(** The object bound to [academicJson] once the handler has patched it:
    its own named properties and, when it is an array, its elements. *)
Record record : Type := Record_ {
  elements : list value;
  own : Obj.t value
}.

(** One iteration of the loop over [requiredKeys]. *)
Definition patchKey (fallback : Obj.t value) (o : Obj.t value) (key : jsstring)
    : Obj.t value :=
  match Obj.get o key with
  | None => Obj.set o key (prop fallback key)
  | Some v => if needsFallback v then Obj.set o key (prop fallback key) else o
  end.

Definition patchRequired (fallback : Obj.t value) (o : Obj.t value) : Obj.t value :=
  foldl (patchKey fallback) o requiredKeys.

(** The [if]/[else] after [parsedFallback]; [None] is the [TypeError] that
    [key in academicJson] raises on a string. *)
Definition patch (academicJson : value) (p : parsed) : option record :=
  let fallback := parsedFallback p in
  if falsy academicJson || noKeys academicJson then Some (Record_ [] fallback)
  else
    match academicJson with
    | JObj props => Some (Record_ [] (patchRequired fallback props))
    | JArr items => Some (Record_ items (patchRequired fallback []))
    | _ => None
    end.

(** [academicJson.positions == null || academicJson.positions.length === 0] *)
Definition positionsEmpty (r : record) : bool :=
  nullish (prop (own r) (js "positions"))
  || lengthIsZero (prop (own r) (js "positions")).

(** The last [if] before the record is stored and sent. *)
Definition positionsFallback (p : parsed) (r : record) : record :=
  if positionsEmpty r && (0 <? length (work_experience p))%nat
  then Record_ (elements r) (Obj.set (own r) (js "positions") (JArr (work_experience p)))
  else r.

Definition assemble (academicJson : value) (p : parsed) : option record :=
  positionsFallback p <$> patch academicJson p.

(** What [res.json] sends and the database stores, the JSON text of the
    record: an array is written as its elements, without its named
    properties. *)
Definition serialized (r : record) : value :=
  match elements r with
  | [] => JObj (own r)
  | items => JArr items
  end.

(** In the words of the specification: the value that the external output
    has for a key; [undefined] when the key is missing or the output is not
    an object. *)
Definition external (academicJson : value) (key : jsstring) : value :=
  match academicJson with
  | JObj props => prop props key
  | _ => JUndefined
  end.

End Assembler.

(** ** [parseEducation] *)

Module Education.

(** The object [currentEdu]. *)
Record entry : Type := Entry {
  degree : option jsstring;
  institution : option jsstring;
  dates : option jsstring;
  location : option jsstring;
  honors : option jsstring
}.

Definition empty : entry := Entry None None None None None.

(** [Object.keys(currentEdu).length > 0] *)
Definition hasKeys (e : entry) : bool :=
  WorkExperience.isSet (degree e) || WorkExperience.isSet (institution e)
  || WorkExperience.isSet (dates e) || WorkExperience.isSet (location e)
  || WorkExperience.isSet (honors e).

(** The canonical form under which the flag [i] compares code units: the
    upper-case letter for [a]-[z]; a code unit from 128 on never takes the
    canonical form of an ASCII one. *)
Definition canonical (c : N) : N := if Js.isLower c then c - 32 else c.

(** [/word/i.test(line)] for a word of ASCII letters. *)
Definition includesIgnoreCase (line word : jsstring) : bool :=
  Js.includes (List.map canonical line) (List.map canonical word).

(** [/w1|w2|.../i.test(line)] *)
Definition mentions (words : list jsstring) (line : jsstring) : bool :=
  existsb (includesIgnoreCase line) words.

Definition degreeWords : list jsstring :=
  [js "Bachelor"; js "Master"; js "PhD"; js "Doctorate"; js "Associate";
   js "Certificate"; js "Diploma"].

Definition institutionWords : list jsstring :=
  [js "University"; js "College"; js "Institute"; js "School"].

Definition honorsWords : list jsstring :=
  [js "GPA"; js "Honors"; js "Magna"; js "Summa"; js "Cum"; js "Dean"].

Definition isDegreeLine (line : jsstring) : bool := mentions degreeWords line.

(** [!currentEdu.institution] *)
Definition institutionUnset (e : entry) : bool :=
  match institution e with
  | None => true
  | Some s => Js.isEmpty s
  end.

(** The loop state: [education] and [currentEdu]. *)
Definition state : Type := (list entry * entry)%type.

(** One iteration of the [for] loop. *)
Definition step (st : state) (rawLine : jsstring) : state :=
  let '(education, cur) := st in
  let line := Js.trim rawLine in
  if isDegreeLine line then
    ((if hasKeys cur then education ++ [cur] else education),
     Entry (Some line) None None None None)
  else if mentions institutionWords line && institutionUnset cur then
    (education,
     Entry (degree cur) (Some line) (dates cur) (location cur) (honors cur))
  else if WorkExperience.hasYear line then
    (education,
     Entry (degree cur) (institution cur) (Some line) (location cur) (honors cur))
  else if Js.includes line (js ",") && WorkExperience.endsWithState line then
    (education,
     Entry (degree cur) (institution cur) (dates cur) (Some line) (honors cur))
  else if mentions honorsWords line then
    (education,
     Entry (degree cur) (institution cur) (dates cur) (location cur) (Some line))
  else st.

Definition parseEducation (text : jsstring) : list entry :=
  if Js.isEmpty text then []
  else
    let '(education, cur) := foldl step ([], empty) (nonBlankLines text) in
    if hasKeys cur then education ++ [cur] else education.

End Education.

(** ** The fenced block of [gptOrganizeResume] *)

Module Fence.

(** The opening [```json] under the flag [i]. *)
Definition opens (s : jsstring) : bool :=
  Js.startsWith (List.map Education.canonical (take 7 s))
    (List.map Education.canonical (js "```json")).

(** [\s*```] matches at the start of [s]: a backquote is not white space, so
    the white space is skipped whole. *)
Definition closes (s : jsstring) : bool :=
  Js.startsWith (Js.trimStart s) (js "```").

(** The lazy group [([\s\S]*?)] followed by [\s*```]: the shortest prefix
    after which the closing matches. *)
Fixpoint lazyBody (s : jsstring) : option jsstring :=
  if closes s then Some []
  else
    match s with
    | [] => None
    | c :: r => cons c <$> lazyBody r
    end.

(** [content.match(/```json\s*([\s\S]*?)\s*```/i)]: the group of the
    leftmost match, which is the text given to [JSON.parse]; [None] when
    there is no match and the function throws.  After the opening the
    greedy [\s*] takes all the white space: if the rest fails to match
    then, it also fails after less white space. *)
Fixpoint fencedJson (content : jsstring) : option jsstring :=
  match content with
  | [] => None
  | _ :: r =>
      if opens content then
        match lazyBody (Js.trimStart (drop 7 content)) with
        | Some body => Some body
        | None => fencedJson r
        end
      else fencedJson r
  end.

End Fence.

(** ** The section texts that the [/api/parse] handler parses *)

Module Handler.

(** [sections[k1] || sections[k2] || ...]: the first value that is not
    empty.  When there is none the expression is [''] or [undefined], which
    the parsers treat alike ([if (!text) return]); both are the empty
    string here. *)
Fixpoint firstTruthy (sections : Obj.t jsstring) (keys : list jsstring)
    : jsstring :=
  match keys with
  | [] => []
  | k :: rest =>
      match Obj.get sections k with
      | Some v => if Js.isEmpty v then firstTruthy sections rest else v
      | None => firstTruthy sections rest
      end
  end.

Definition workExperienceKeys : list jsstring :=
  [js "work experience"; js "professional experience";
   js "founder & product experience"; js "research experience";
   js "experience"; js "employment"; js "positions"; js "appointments"].

Definition educationKeys : list jsstring :=
  [js "education"; js "academic background"; js "academic experience"].

Definition skillsKeys : list jsstring :=
  [js "skills"; js "skills & interests"; js "technical skills";
   js "core competencies"; js "laboratory & fields";
   js "programming languages"; js "technologies"; js "tools";
   js "frameworks"; js "interests"].

Section WithToLowerCase.

Variable toLowerCase : jsstring -> jsstring.

(** [extractSectionsByLines(text.text, sectionNames)] *)
Definition sectionsOf (text : jsstring) : Obj.t jsstring :=
  extractSectionsByLines toLowerCase text sectionNames.

Definition work_experience (text : jsstring) : list WorkExperience.entry :=
  WorkExperience.parseWorkExperience (firstTruthy (sectionsOf text) workExperienceKeys).

Definition education (text : jsstring) : list Education.entry :=
  Education.parseEducation (firstTruthy (sectionsOf text) educationKeys).

Definition skills (text : jsstring) : Obj.t (list jsstring) :=
  Skills.parseSkills (firstTruthy (sectionsOf text) skillsKeys).

(** [buildRelevantResumeText(sections, 8000)] *)
Definition relevantText (text : jsstring) : jsstring :=
  Digest.buildRelevantResumeText (sectionsOf text) 8000.

End WithToLowerCase.

End Handler.

(** ** Invariants of the skills loop *)

(** No raw skill collected so far contains a comma. *)
Definition commaFree (skills : Obj.t (list jsstring)) : Prop :=
  forall k l x, (k, l) ∈ skills -> x ∈ l -> 44 ∉ x.

(** The categories that a list of lines can give. *)
Definition categoryOf (lines : list jsstring) (k : jsstring) : Prop :=
  k = js "Other"
  \/ exists line,
       line ∈ lines /\ Skills.isCategoryHeader (Js.trim line) = true
       /\ k = Skills.removeFirstColon (Js.trim line).

(** ** Regular expressions of [extractContactInfo] *)

Module Regex.

(** The constructs that the four patterns use; every quantifier is greedy. *)
Inductive regex : Type :=
| Class (p : N -> bool)
| Cat (a b : regex)
| Rep (min : nat) (max : option nat) (body : regex)
| LineStart
| WordBoundary.

(** A position in the input: the code unit before it, if any, and the input
    from it on. *)
Record cursor : Type := Cursor {
  before : option N;
  rest : jsstring
}.

(** Line terminators, for [^] under the flag [m]. *)
Definition isLineTerminator (c : N) : bool :=
  (c =? 10) || (c =? 13) || (c =? 8232) || (c =? 8233).

(** The class [\w], for [\b]. *)
Definition isWordChar (c : N) : bool :=
  Js.isUpper c || Js.isLower c || Js.isDigit c || (c =? 95).

Definition atLineStart (c : cursor) : bool :=
  match before c with
  | None => true
  | Some x => isLineTerminator x
  end.

Definition wordSide (x : option N) : bool :=
  match x with
  | Some c => isWordChar c
  | None => false
  end.

Definition atWordBoundary (c : cursor) : bool :=
  xorb (wordSide (before c)) (wordSide (head (rest c))).

Definition below (max : option nat) (n : nat) : bool :=
  match max with
  | Some m => (n <? m)%nat
  | None => true
  end.

(** The repetition of a matcher [m], after [n] iterations, with the
    continuation [k].  Below [min] another iteration is required; from
    [min] on an iteration is tried first, has to consume input, and the
    continuation is tried when it fails.  [fuel] bounds the number of
    iterations: at most [min] without progress and one per code unit. *)
Fixpoint iterate (m : cursor -> (cursor -> option cursor) -> option cursor)
    (min : nat) (max : option nat) (fuel n : nat) (c : cursor)
    (k : cursor -> option cursor) : option cursor :=
  match fuel with
  | O => if (min <=? n)%nat then k c else None
  | S fuel' =>
      if (n <? min)%nat then
        m c (fun c' => iterate m min max fuel' (S n) c' k)
      else if below max n then
        match m c (fun c' =>
                     if (length (rest c') =? length (rest c))%nat then None
                     else iterate m min max fuel' (S n) c' k) with
        | Some result => Some result
        | None => k c
        end
      else k c
  end.

(** The backtracking matcher: the end of the first match of [r] at [c] that
    the continuation [k] accepts. *)
Fixpoint run (r : regex) (c : cursor) (k : cursor -> option cursor)
    : option cursor :=
  match r with
  | Class p =>
      match rest c with
      | x :: xs => if p x then k (Cursor (Some x) xs) else None
      | [] => None
      end
  | Cat a b => run a c (fun c' => run b c' k)
  | Rep min max body =>
      iterate (run body) min max (min + S (length (rest c)))%nat 0%nat c k
  | LineStart => if atLineStart c then k c else None
  | WordBoundary => if atWordBoundary c then k c else None
  end.

(** [s.match(r)] for a pattern without the flag [g]: the text of the
    leftmost match, looked for from every index of [s] in turn; [prev] is
    the code unit before [s]. *)
Fixpoint search (r : regex) (prev : option N) (s : jsstring) : option jsstring :=
  match run r (Cursor prev s) Some with
  | Some c' => Some (take (length s - length (rest c')) s)
  | None =>
      match s with
      | [] => None
      | x :: xs => search r (Some x) xs
      end
  end.

Definition matchOf (r : regex) (text : jsstring) : option jsstring :=
  search r None text.

Definition chr (c : N) : regex := Class (N.eqb c).
Definition plus (r : regex) : regex := Rep 1%nat None r.
Definition star (r : regex) : regex := Rep 0%nat None r.
Definition opt (r : regex) : regex := Rep 0%nat (Some 1%nat) r.
Definition times (n : nat) (r : regex) : regex := Rep n (Some n) r.

(** The consumed text [w] of a match of [r], between the code unit [prev]
    and the text [after]. *)
Definition lastOr (prev : option N) (w : jsstring) : option N :=
  match last w with
  | Some x => Some x
  | None => prev
  end.

Inductive Matches : regex -> option N -> jsstring -> jsstring -> Prop :=
| M_Class p prev x after :
    p x = true -> Matches (Class p) prev [x] after
| M_Cat a b prev w1 w2 after :
    Matches a prev w1 (w2 ++ after) ->
    Matches b (lastOr prev w1) w2 after ->
    Matches (Cat a b) prev (w1 ++ w2) after
| M_Rep min max body n prev w after :
    (min <= n)%nat -> (forall m, max = Some m -> (n <= m)%nat) ->
    Repeats body n prev w after ->
    Matches (Rep min max body) prev w after
| M_LineStart prev after :
    atLineStart (Cursor prev after) = true -> Matches LineStart prev [] after
| M_WordBoundary prev after :
    atWordBoundary (Cursor prev after) = true -> Matches WordBoundary prev [] after
with Repeats : regex -> nat -> option N -> jsstring -> jsstring -> Prop :=
| R_zero body prev after : Repeats body 0%nat prev [] after
| R_more body n prev w1 w2 after :
    Matches body prev w1 (w2 ++ after) ->
    Repeats body n (lastOr prev w1) w2 after ->
    Repeats body (S n) prev (w1 ++ w2) after.

(** What a matcher returns is accepted by its continuation after a match. *)
Definition sound (r : regex)
    (m : cursor -> (cursor -> option cursor) -> option cursor) : Prop :=
  forall c k result,
    m c k = Some result ->
    exists w after,
      rest c = w ++ after
      /\ Matches r (before c) w after
      /\ k (Cursor (lastOr (before c) w) after) = Some result.

(** The bounds of every quantifier are in order (JavaScript rejects the
    others when it parses the pattern). *)
Fixpoint wellFormed (r : regex) : bool :=
  match r with
  | Class _ | LineStart | WordBoundary => true
  | Cat a b => wellFormed a && wellFormed b
  | Rep min max body =>
      match max with
      | Some m => (min <=? m)%nat
      | None => true
      end && wellFormed body
  end.

End Regex.

(** ** [extractContactInfo] *)

Module Contact.

Import Regex.

Definition upper : regex := Class Js.isUpper.
Definition lower : regex := Class Js.isLower.
Definition digit : regex := Class Js.isDigit.

(** [[-.\s]] *)
Definition separator : regex :=
  Class (fun c => (c =? 45) || (c =? 46) || Js.isWhiteSpace c).

(** [/^([A-Z][a-z]+ [A-Z][a-z]+)/m] *)
Definition nameRegex : regex :=
  Cat LineStart
    (Cat upper (Cat (plus lower) (Cat (chr 32) (Cat upper (plus lower))))).

(** [[A-Za-z0-9._%+-]], [[A-Za-z0-9.-]] and [[A-Z|a-z]] *)
Definition isLocalPart (c : N) : bool :=
  Js.isUpper c || Js.isLower c || Js.isDigit c
  || (c =? 46) || (c =? 95) || (c =? 37) || (c =? 43) || (c =? 45).

Definition isDomain (c : N) : bool :=
  Js.isUpper c || Js.isLower c || Js.isDigit c || (c =? 46) || (c =? 45).

Definition isTopLevel (c : N) : bool :=
  Js.isUpper c || (c =? 124) || Js.isLower c.

(** [/\b[A-Za-z0-9._%+-]+@[A-Za-z0-9.-]+\.[A-Z|a-z]{2,}\b/] *)
Definition emailRegex : regex :=
  Cat WordBoundary
    (Cat (plus (Class isLocalPart))
       (Cat (chr 64)
          (Cat (plus (Class isDomain))
             (Cat (chr 46)
                (Cat (Rep 2%nat None (Class isTopLevel)) WordBoundary))))).

(** [/(\+\d{1,3}[-.\s]?)?\(?\d{3}\)?[-.\s]?\d{3}[-.\s]?\d{4}/] *)
Definition phoneRegex : regex :=
  Cat (opt (Cat (chr 43) (Cat (Rep 1%nat (Some 3%nat) digit) (opt separator))))
    (Cat (opt (chr 40))
       (Cat (times 3%nat digit)
          (Cat (opt (chr 41))
             (Cat (opt separator)
                (Cat (times 3%nat digit)
                   (Cat (opt separator) (times 4%nat digit))))))).

(** [/([A-Z][a-z]+(?:[,\s]+[A-Z][a-z]+)*,\s*[A-Z]{2})/] *)
Definition locationRegex : regex :=
  Cat upper
    (Cat (plus lower)
       (Cat (star (Cat (plus (Class (fun c => (c =? 44) || Js.isWhiteSpace c)))
                     (Cat upper (plus lower))))
          (Cat (chr 44)
             (Cat (star (Class Js.isWhiteSpace)) (times 2%nat upper))))).

Record contactInfo : Type := ContactInfo {
  name : jsstring;
  email : jsstring;
  phone : jsstring;
  location : jsstring
}.

(** In the name and the location patterns the group is the whole match. *)
Definition extractContactInfo (text : jsstring) : contactInfo :=
  {| name := default [] (matchOf nameRegex text);
     email := default [] (matchOf emailRegex text);
     phone := default [] (matchOf phoneRegex text);
     location := default [] (matchOf locationRegex text) |}.

End Contact.

(** * Properties *)

(** ** Facts about the string primitives *)

Section JsFacts.

Import Js.

Lemma trimEnd_cons c r :
  trimEnd (c :: r) =
    if isEmpty (trimEnd r) then (if isWhiteSpace c then [] else [c])
    else c :: trimEnd r.
Proof. simpl. destruct (trimEnd r); reflexivity. Qed.

Lemma trimStart_startsClean s : startsClean (trimStart s) = true.
Proof.
  induction s as [|c r IH]; simpl; [reflexivity|].
  destruct (isWhiteSpace c) eqn:E; [exact IH|]. simpl. rewrite E. reflexivity.
Qed.

Lemma trimStart_fixed s : startsClean s = true -> trimStart s = s.
Proof.
  destruct s as [|c r]; simpl; [reflexivity|].
  destruct (isWhiteSpace c); [discriminate | reflexivity].
Qed.

Lemma trimEnd_startsClean s : startsClean s = true -> startsClean (trimEnd s) = true.
Proof.
  destruct s as [|c r]; [reflexivity|]. rewrite trimEnd_cons. simpl. intros H.
  destruct (isEmpty (trimEnd r)); [|exact H].
  destruct (isWhiteSpace c) eqn:W; [reflexivity|]. simpl. rewrite W. reflexivity.
Qed.

Lemma trimEnd_trimEnd s : trimEnd (trimEnd s) = trimEnd s.
Proof.
  induction s as [|c r IH]; [reflexivity|]. rewrite trimEnd_cons.
  destruct (trimEnd r) as [|d r'] eqn:E; simpl.
  - destruct (isWhiteSpace c) eqn:W; simpl; [reflexivity | rewrite W; reflexivity].
  - simpl in IH. rewrite IH. reflexivity.
Qed.

Lemma trim_trim s : trim (trim s) = trim s.
Proof.
  unfold trim.
  rewrite (trimStart_fixed (trimEnd (trimStart s))).
  - apply trimEnd_trimEnd.
  - apply trimEnd_startsClean, trimStart_startsClean.
Qed.

End JsFacts.

(** ** [normalizeHeader] *)

Section NormalizeHeaderFacts.

Import Js.

Lemma collapseSpaces_fixed b s : spaced b s = true -> collapseSpaces b s = s.
Proof.
  revert b. induction s as [|c r IH]; intros b; simpl; [reflexivity|].
  destruct (isWhiteSpace c).
  - intros H. apply andb_prop in H as [H Hr]. apply andb_prop in H as [Hb Hc].
    destruct b; [discriminate|]. apply N.eqb_eq in Hc. subst c.
    rewrite (IH true Hr). reflexivity.
  - intros H. rewrite (IH false H). reflexivity.
Qed.

Lemma collapseSpaces_spaced b s : spaced b (collapseSpaces b s) = true.
Proof.
  revert b. induction s as [|c r IH]; intros b; simpl; [reflexivity|].
  destruct (isWhiteSpace c) eqn:W.
  - destruct b; [apply IH|]. simpl. apply IH.
  - simpl. rewrite W. apply IH.
Qed.

Lemma spaced_weaken b s : spaced b s = true -> spaced false s = true.
Proof.
  destruct s as [|c r]; simpl; [reflexivity|].
  destruct (isWhiteSpace c); [|tauto].
  intros H. apply andb_prop in H as [H Hr]. apply andb_prop in H as [_ Hc].
  rewrite Hc, Hr. reflexivity.
Qed.

Lemma trimStart_spaced b s : spaced b s = true -> spaced false (trimStart s) = true.
Proof.
  revert b. induction s as [|c r IH]; intros b; simpl; [reflexivity|].
  destruct (isWhiteSpace c) eqn:W.
  - intros H. apply andb_prop in H as [_ Hr]. exact (IH true Hr).
  - intros H. simpl. rewrite W. exact H.
Qed.

Lemma trimEnd_spaced b s : spaced b s = true -> spaced b (trimEnd s) = true.
Proof.
  revert b. induction s as [|c r IH]; intros b; [reflexivity|].
  rewrite trimEnd_cons. intros H. simpl in H.
  destruct (isEmpty (trimEnd r)).
  - destruct (isWhiteSpace c) eqn:W; simpl; [reflexivity | rewrite W; reflexivity].
  - simpl. destruct (isWhiteSpace c).
    + apply andb_prop in H as [H Hr]. rewrite H. exact (IH true Hr).
    + exact (IH false H).
Qed.

Lemma stripOthers_kept s : kept (stripOthers s) = true.
Proof.
  induction s as [|c r IH]; simpl; [reflexivity|].
  destruct (isKept c) eqn:K; simpl; [rewrite K|]; exact IH.
Qed.

Lemma collapseSpaces_kept b s : kept s = true -> kept (collapseSpaces b s) = true.
Proof.
  revert b. induction s as [|c r IH]; intros b; simpl; [reflexivity|].
  intros H. apply andb_prop in H as [Hc Hr].
  destruct (isWhiteSpace c).
  - destruct b; [exact (IH true Hr)|]. simpl. exact (IH true Hr).
  - simpl. rewrite Hc. exact (IH false Hr).
Qed.

Lemma trimStart_kept s : kept s = true -> kept (trimStart s) = true.
Proof.
  induction s as [|c r IH]; simpl; [reflexivity|].
  intros H. destruct (isWhiteSpace c).
  - apply andb_prop in H as [_ Hr]. exact (IH Hr).
  - exact H.
Qed.

Lemma trimEnd_kept s : kept s = true -> kept (trimEnd s) = true.
Proof.
  induction s as [|c r IH]; [reflexivity|].
  rewrite trimEnd_cons. intros H. simpl in H. apply andb_prop in H as [Hc Hr].
  destruct (isEmpty (trimEnd r)).
  - destruct (isWhiteSpace c); simpl; [reflexivity | rewrite Hc; reflexivity].
  - simpl. rewrite Hc. exact (IH Hr).
Qed.

Lemma isKept_cases c :
  isKept c = true -> c <> 38 /\ isUpper c = false /\ isAscii c = true.
Proof.
  unfold isKept, isLower, isDigit, isUpper, isAscii.
  rewrite !orb_true_iff, !andb_true_iff, !N.leb_le, N.eqb_eq.
  rewrite andb_false_iff, !N.leb_gt, N.ltb_lt. lia.
Qed.

Lemma kept_ascii s : kept s = true -> forallb isAscii s = true.
Proof.
  induction s as [|c r IH]; simpl; [reflexivity|].
  intros H. apply andb_prop in H as [Hc Hr].
  apply isKept_cases in Hc as (_ & _ & ->). exact (IH Hr).
Qed.

Lemma kept_toLowerAscii s : kept s = true -> toLowerAscii s = s.
Proof.
  induction s as [|c r IH]; simpl; [reflexivity|].
  intros H. apply andb_prop in H as [Hc Hr].
  unfold lowerAscii. apply isKept_cases in Hc as (_ & -> & _).
  rewrite (IH Hr). reflexivity.
Qed.

Lemma kept_replaceAmpersand s : kept s = true -> replaceAmpersand s = s.
Proof.
  unfold replaceAmpersand.
  induction s as [|c r IH]; [reflexivity|].
  intros H. simpl in H. apply andb_prop in H as [Hc Hr].
  cbn [flat_map]. rewrite (IH Hr).
  apply isKept_cases in Hc as (Hc & _ & _). apply N.eqb_neq in Hc. rewrite Hc.
  reflexivity.
Qed.

Lemma kept_stripOthers s : kept s = true -> stripOthers s = s.
Proof.
  unfold stripOthers.
  induction s as [|c r IH]; [reflexivity|].
  intros H. simpl in H. apply andb_prop in H as [Hc Hr].
  cbn [List.filter]. rewrite Hc, (IH Hr). reflexivity.
Qed.

Variable toLowerCase : jsstring -> jsstring.

(** On an ASCII string [toLowerCase] lower-cases the letters [A]-[Z] and
    leaves every other code unit as it is. *)
Hypothesis toLowerCase_ascii :
  forall s, forallb isAscii s = true -> toLowerCase s = toLowerAscii s.

Lemma normalizeHeader_kept s : kept (normalizeHeader toLowerCase s) = true.
Proof.
  unfold normalizeHeader, trim.
  apply trimEnd_kept, trimStart_kept, collapseSpaces_kept, stripOthers_kept.
Qed.

Lemma normalizeHeader_spaced s : spaced false (normalizeHeader toLowerCase s) = true.
Proof.
  unfold normalizeHeader, trim.
  apply trimEnd_spaced, (trimStart_spaced false), collapseSpaces_spaced.
Qed.

Lemma toLowerAscii_ascii s :
  forallb isAscii s = true -> forallb isAscii (toLowerAscii s) = true.
Proof.
  induction s as [|c r IH]; simpl; [reflexivity|].
  intros H. apply andb_prop in H as [Hc Hr]. rewrite (IH Hr), andb_true_r.
  revert Hc. unfold lowerAscii, isUpper, isAscii.
  destruct (_ && _) eqn:U; [|done].
  apply andb_prop in U as [_ U]. apply N.leb_le in U.
  intros _. apply N.ltb_lt. lia.
Qed.

Lemma significant_ascii s :
  forallb isAscii s = true -> forallb isAscii (significant s) = true.
Proof.
  induction s as [|c r IH]; simpl; [reflexivity|].
  intros H. apply andb_prop in H as [Hc Hr].
  destruct (isSignificant c); simpl; [rewrite Hc|]; exact (IH Hr).
Qed.

Lemma core_cons c r :
  core (c :: r)
  = stripOthers (if lowerAscii c =? 38 then js "and" else [lowerAscii c]) ++ core r.
Proof.
  unfold core, stripOthers, replaceAmpersand. cbn [toLowerAscii List.map flat_map].
  apply List.filter_app.
Qed.

(** A code unit that is not significant leaves no trace. *)
Lemma core_significant s : core (significant s) = core s.
Proof.
  induction s as [|c r IH]; [reflexivity|].
  unfold significant. cbn [List.filter]. fold (significant r).
  destruct (isSignificant c) eqn:S.
  - rewrite !core_cons, IH. reflexivity.
  - rewrite core_cons, IH.
    assert (stripOthers (if lowerAscii c =? 38 then js "and" else [lowerAscii c])
            = []) as ->; [|reflexivity].
    revert S. unfold isSignificant, lowerAscii.
    rewrite !orb_false_iff. intros ((((U & L) & D) & Sp) & A).
    rewrite U, A. unfold stripOthers, isKept. cbn [List.filter].
    rewrite L, D, Sp. reflexivity.
Qed.

Lemma normalizeHeader_core s :
  forallb isAscii s = true ->
  normalizeHeader toLowerCase s = trim (collapseSpaces false (core s)).
Proof.
  intros H. unfold normalizeHeader, core. rewrite (toLowerCase_ascii s H).
  reflexivity.
Qed.

(** C9, amended.  [normalizeHeader] is idempotent on every string, and two
    strings with the same lower-case form have the same normal form.  On
    ASCII headers it is insensitive to case (two headers that agree once
    [A]-[Z] are lower-cased have the same normal form) and to every code unit
    that is not a letter, a digit, a space or an ampersand (two headers that
    agree once such code units are removed have the same normal form); and
    it sends ["Work  Experience!"] and ["work experience"] to the same
    string. *)
Theorem normalizeHeader_idempotent_insensitive :
  (forall s,
     normalizeHeader toLowerCase (normalizeHeader toLowerCase s)
     = normalizeHeader toLowerCase s)
  /\ (forall s t,
        toLowerCase s = toLowerCase t ->
        normalizeHeader toLowerCase s = normalizeHeader toLowerCase t)
  /\ (forall s t,
        forallb isAscii s = true -> forallb isAscii t = true ->
        toLowerAscii s = toLowerAscii t ->
        normalizeHeader toLowerCase s = normalizeHeader toLowerCase t)
  /\ (forall s t,
        forallb isAscii s = true -> forallb isAscii t = true ->
        significant s = significant t ->
        normalizeHeader toLowerCase s = normalizeHeader toLowerCase t)
  /\ normalizeHeader toLowerCase (js "Work  Experience!")
     = normalizeHeader toLowerCase (js "work experience").
Proof.
  split; [|split; [|split; [|split]]].
  - intros s.
    pose proof (normalizeHeader_kept s) as K.
    pose proof (normalizeHeader_spaced s) as S.
    set (t := normalizeHeader toLowerCase s) in *.
    unfold normalizeHeader at 1.
    rewrite (toLowerCase_ascii t (kept_ascii t K)).
    rewrite (kept_toLowerAscii t K), (kept_replaceAmpersand t K),
      (kept_stripOthers t K), (collapseSpaces_fixed false t S).
    subst t. unfold normalizeHeader. apply trim_trim.
  - intros s t E. unfold normalizeHeader. rewrite E. reflexivity.
  - intros s t Hs Ht E.
    rewrite !normalizeHeader_core by done. unfold core. rewrite E. reflexivity.
  - intros s t Hs Ht E.
    rewrite !normalizeHeader_core by done.
    rewrite <- (core_significant s), <- (core_significant t), E. reflexivity.
  - unfold normalizeHeader.
    rewrite !toLowerCase_ascii by reflexivity. reflexivity.
Qed.

End NormalizeHeaderFacts.

(** The amended C9 at an instance of [toLowerCase], the lower-casing of
    ASCII: a second pass, two spellings that differ in case, two that differ
    in punctuation, and the strings of the specification. *)
Lemma normalizeHeader_idempotent_insensitive_witness :
  normalizeHeader toLowerAscii
    (normalizeHeader toLowerAscii (js "Founder & Product Experience"))
  = normalizeHeader toLowerAscii (js "Founder & Product Experience")
  /\ normalizeHeader toLowerAscii (js "TECHNICAL SKILLS")
     = normalizeHeader toLowerAscii (js "Technical Skills")
  /\ normalizeHeader toLowerAscii (js "-- Skills: --")
     = normalizeHeader toLowerAscii (js " Skills ")
  /\ normalizeHeader toLowerAscii (js "Work  Experience!")
     = normalizeHeader toLowerAscii (js "work experience").
Proof.
  destruct (normalizeHeader_idempotent_insensitive toLowerAscii
              (fun s _ => eq_refl)) as (H1 & _ & H2 & H3 & H4).
  split; [apply H1|]. split; [apply H2; reflexivity|].
  split; [apply H3; reflexivity | exact H4].
Defined.

(** C9 as stated fails at the ampersand, which is not dropped but replaced
    by [and]: [R&D] and [RD] differ in punctuation only and have the normal
    forms [randd] and [rd]. *)
Lemma normalizeHeader_ampersand_counterexample :
  normalizeHeader toLowerAscii (js "R&D") = js "randd"
  /\ normalizeHeader toLowerAscii (js "RD") = js "rd"
  /\ normalizeHeader toLowerAscii (js "R&D")
     <> normalizeHeader toLowerAscii (js "RD").
Proof. split; [reflexivity|]. split; [reflexivity|]. by vm_compute. Qed.

(** ** Enumerated objects *)

Section ObjFacts.

Context {V : Type}.

Lemma get_set_eq (o : Obj.t V) (k : jsstring) (v : V) : Obj.get (Obj.set o k v) k = Some v.
Proof.
  induction o as [|[k0 v0] r IH]; simpl; unfold Js.eqb.
  - rewrite bool_decide_eq_true_2; done.
  - destruct (decide (k0 = k)) as [->|Hne].
    + rewrite bool_decide_eq_true_2 by done. simpl. unfold Js.eqb.
      rewrite bool_decide_eq_true_2; done.
    + rewrite bool_decide_eq_false_2 by done. simpl. unfold Js.eqb.
      rewrite bool_decide_eq_false_2 by done. exact IH.
Qed.

Lemma get_set_ne (o : Obj.t V) (k k' : jsstring) (v : V) :
  k <> k' -> Obj.get (Obj.set o k v) k' = Obj.get o k'.
Proof.
  intros Hkk'. induction o as [|[k0 v0] r IH]; simpl; unfold Js.eqb.
  - rewrite bool_decide_eq_false_2; done.
  - destruct (decide (k0 = k)) as [->|Hne].
    + rewrite bool_decide_eq_true_2 by done. simpl. unfold Js.eqb.
      rewrite bool_decide_eq_false_2; done.
    + rewrite bool_decide_eq_false_2 by done. simpl. unfold Js.eqb.
      destruct (bool_decide (k0 = k')); [done | exact IH].
Qed.

End ObjFacts.

(** ** [extractSectionsByLines] *)

Section SegmenterFacts.

Variable toLowerCase : jsstring -> jsstring.

#[local] Abbreviation normalize := (normalizeHeader toLowerCase) (only parsing).

Lemma inherited_elem_of (k : jsstring) :
  Obj.inherited k = true <-> k ∈ Obj.prototypeNames.
Proof.
  unfold Obj.inherited. rewrite existsb_exists. split.
  - intros (x & Hx & E). apply bool_decide_eq_true_1 in E. subst x.
    by apply list_elem_of_In.
  - intros H. exists k. split; [by apply list_elem_of_In|].
    by apply bool_decide_eq_true_2.
Qed.

(** Of the names of [Object.prototype], [constructor] alone is over the
    alphabet of the normalized headers. *)
Lemma inherited_kept (k : jsstring) :
  kept k = true -> Obj.inherited k = true -> k = js "constructor".
Proof.
  intros Hk H. apply inherited_elem_of, list_elem_of_In in H.
  unfold Obj.prototypeNames in H. cbn [In] in H.
  repeat (destruct H as [<-|H]; [first [reflexivity | by vm_compute in Hk]|]).
  destruct H.
Qed.

Lemma readIndex_NotFound (indices : gmap (list N) nat) (s : jsstring) :
  indices !! s = None -> Obj.inherited s = false ->
  readIndex indices s = NotFound.
Proof. intros H1 H2. unfold readIndex. rewrite H1, H2. done. Qed.

Lemma readIndex_inherited (indices : gmap (list N) nat) (s : jsstring) :
  indices !! s = None -> Obj.inherited s = true ->
  readIndex indices s = InheritedFunction.
Proof. intros H1 H2. unfold readIndex. rewrite H1, H2. done. Qed.

Lemma markLine_lookup (idx : nat) (normalizedLine : jsstring)
    (sections : list jsstring) (acc : gmap (list N) nat) (s : jsstring) :
  markLine idx normalizedLine sections acc !! s =
    match acc !! s with
    | Some i => Some i
    | None =>
        if bool_decide (s ∈ sections) && negb (Obj.inherited s)
           && headerMatches normalizedLine s
        then Some idx else None
    end.
Proof.
  unfold markLine. revert acc.
  induction sections as [|x l IH]; intros acc; simpl.
  - destruct (acc !! s); done.
  - rewrite IH. destruct (decide (x = s)) as [->|Hne].
    + rewrite (bool_decide_eq_true_2 (s ∈ s :: l)) by apply list_elem_of_here.
      destruct (headerMatches normalizedLine s) eqn:M.
      * unfold readIndex. destruct (acc !! s) eqn:E; [rewrite E; done|].
        destruct (Obj.inherited s) eqn:I; simpl.
        -- rewrite E. destruct (bool_decide _); done.
        -- rewrite lookup_insert_eq. done.
      * destruct (acc !! s) eqn:E; [done|]. rewrite !andb_false_r. done.
    + assert (bool_decide (s ∈ x :: l) = bool_decide (s ∈ l)) as ->.
      { apply bool_decide_ext. rewrite elem_of_cons.
        split; [intros [?|?]; [congruence | done] | auto]. }
      destruct (headerMatches normalizedLine x); [|done].
      unfold readIndex. destruct (acc !! x) eqn:E; [done|].
      destruct (Obj.inherited x); [done|].
      rewrite lookup_insert_ne by done. done.
Qed.

Lemma scanLines_lookup (lines : list jsstring) (idx : nat)
    (sections : list jsstring) (acc : gmap (list N) nat) (s : jsstring) :
  scanLines toLowerCase lines idx sections acc !! s =
    match acc !! s with
    | Some i => Some i
    | None =>
        if bool_decide (s ∈ sections) && negb (Obj.inherited s)
        then firstMatch toLowerCase s lines idx else None
    end.
Proof.
  revert idx acc. induction lines as [|line rest IH]; intros idx acc; simpl.
  - destruct (acc !! s); [done|]. destruct (_ && _); done.
  - rewrite IH, markLine_lookup.
    destruct (acc !! s); [done|].
    destruct (bool_decide (s ∈ sections) && negb (Obj.inherited s)); simpl;
      [|done].
    destruct (headerMatches _ s); done.
Qed.

(** For a candidate whose normalized form is not a name of
    [Object.prototype], the recorded index is that of the first matching
    line. *)
Lemma sectionIndicesOf_lookup (text : jsstring) (sectionNames : list jsstring)
    (c : jsstring) :
  c ∈ sectionNames ->
  Obj.inherited (normalize c) = false ->
  sectionIndicesOf toLowerCase text sectionNames !! normalize c
  = firstMatch toLowerCase (normalize c) (linesOf text) 0.
Proof.
  intros Hc Hown. unfold sectionIndicesOf.
  rewrite scanLines_lookup, lookup_empty, Hown.
  rewrite bool_decide_eq_true_2; [done|].
  apply list_elem_of_fmap. exists c. done.
Qed.

(** No index is ever recorded under an inherited name. *)
Lemma sectionIndicesOf_inherited (text : jsstring) (sectionNames : list jsstring)
    (s : jsstring) :
  Obj.inherited s = true ->
  sectionIndicesOf toLowerCase text sectionNames !! s = None.
Proof.
  intros Hs. unfold sectionIndicesOf.
  rewrite scanLines_lookup, lookup_empty, Hs, andb_false_r. done.
Qed.

(** [firstMatch] is the least index of a matching line. *)
Lemma firstMatch_Some (section : jsstring) (lines : list jsstring) (idx k : nat) :
  firstMatch toLowerCase section lines idx = Some k <->
  exists i line,
    k = (idx + i)%nat /\ lines !! i = Some line
    /\ headerMatches (normalize line) section = true
    /\ forall j line', (j < i)%nat -> lines !! j = Some line' ->
         headerMatches (normalize line') section = false.
Proof.
  revert idx. induction lines as [|line rest IH]; intros idx; simpl.
  - split; [done|]. intros (i & l & _ & H & _). done.
  - destruct (headerMatches (normalize line) section) eqn:M.
    + split.
      * intros [= <-]. exists 0%nat, line. repeat split; [lia|done|lia].
      * intros (i & l & -> & Hi & Hl & Hfirst). destruct i as [|i].
        -- f_equal. lia.
        -- rewrite (Hfirst 0%nat line) in M; [done | lia | done].
    + rewrite IH. split.
      * intros (i & l & -> & Hi & Hl & Hfirst).
        exists (S i), l. repeat split; [lia | done | done |].
        intros [|j] l' Hj Hl'; simpl in Hl'; [congruence|].
        apply (Hfirst j); [lia | done].
      * intros (i & l & -> & Hi & Hl & Hfirst). destruct i as [|i].
        -- simpl in Hi. congruence.
        -- exists i, l. repeat split; [lia | done | done |].
           intros j l' Hj Hl'. apply (Hfirst (S j)); [lia | done].
Qed.

Lemma firstMatch_None (section : jsstring) (lines : list jsstring) (idx : nat) :
  (forall line, line ∈ lines -> headerMatches (normalize line) section = false) ->
  firstMatch toLowerCase section lines idx = None.
Proof.
  revert idx. induction lines as [|line rest IH]; intros idx H; simpl; [done|].
  rewrite (H line) by apply list_elem_of_here.
  apply IH. intros l Hl. apply H. by apply list_elem_of_further.
Qed.

Lemma firstMatch_is_Some (section : jsstring) (lines : list jsstring)
    (idx i : nat) (line : jsstring) :
  lines !! i = Some line ->
  headerMatches (normalize line) section = true ->
  is_Some (firstMatch toLowerCase section lines idx).
Proof.
  revert idx i. induction lines as [|l rest IH]; intros idx i Hi Hm; [done|].
  simpl. destruct (headerMatches (normalize l) section) eqn:M; [by eexists|].
  destruct i as [|i]; simpl in Hi; [congruence|]. by apply (IH (S idx) i).
Qed.

Lemma fillSections_other (lines : list jsstring) (indices : gmap (list N) nat)
    (names : list jsstring) (result : Obj.t jsstring) (s : jsstring) :
  s ∉ names ->
  Obj.get (fillSections lines indices names result) s = Obj.get result s.
Proof.
  revert result. induction names as [|n later IH]; intros result Hs; simpl; [done|].
  apply not_elem_of_cons in Hs as [Hne Hs].
  rewrite IH by done. apply get_set_ne. done.
Qed.

Lemma fillSections_is_Some (lines : list jsstring) (indices : gmap (list N) nat)
    (names : list jsstring) (result : Obj.t jsstring) (s : jsstring) :
  s ∈ names ->
  is_Some (Obj.get (fillSections lines indices names result) s).
Proof.
  revert result. induction names as [|n later IH]; intros result Hs; simpl.
  - by apply elem_of_nil in Hs.
  - destruct (decide (s ∈ later)) as [Hin|Hnot]; [by apply IH|].
    apply elem_of_cons in Hs as [->|Hs]; [|done].
    rewrite fillSections_other by done. rewrite get_set_eq. by eexists.
Qed.

(** The property of a name is computed at its last place in the list, from
    the index recorded for it and the names after that place. *)
Lemma fillSections_lookup (lines : list jsstring) (indices : gmap (list N) nat)
    (before later : list jsstring) (result : Obj.t jsstring) (s : jsstring) :
  s ∉ later ->
  Obj.get (fillSections lines indices (before ++ s :: later) result) s
  = Some (sectionText lines indices s later).
Proof.
  revert result. induction before as [|n before IH]; intros result Hs; simpl.
  - rewrite fillSections_other by done. apply get_set_eq.
  - by apply IH.
Qed.

Lemma fillSections_unmatched (lines : list jsstring) (indices : gmap (list N) nat)
    (names : list jsstring) (result : Obj.t jsstring) (s : jsstring) :
  s ∈ names -> indices !! s = None -> Obj.inherited s = false ->
  Obj.get (fillSections lines indices names result) s = Some [].
Proof.
  intros Hs Hnone Hown.
  apply list_elem_of_split_r in Hs as (before & later & -> & Hlater).
  rewrite fillSections_lookup by done.
  unfold sectionText. rewrite readIndex_NotFound by done. done.
Qed.

Lemma fillSections_inherited (lines : list jsstring) (indices : gmap (list N) nat)
    (names : list jsstring) (result : Obj.t jsstring) (s : jsstring) :
  s ∈ names -> indices !! s = None -> Obj.inherited s = true ->
  Obj.get (fillSections lines indices names result) s
  = Some (Js.trim (Js.join [10] lines)).
Proof.
  intros Hs Hnone Hinh.
  apply list_elem_of_split_r in Hs as (before & later & -> & Hlater).
  rewrite fillSections_lookup by done.
  unfold sectionText. rewrite readIndex_inherited by done.
  unfold Js.slice. rewrite drop_0, take_ge by lia. done.
Qed.

(** The result has a property for the normalized form of every candidate
    name. *)
Lemma every_candidate_is_a_key
    (text : jsstring) (sectionNames : list jsstring) (c : jsstring) :
  c ∈ sectionNames ->
  is_Some (Obj.get (extractSectionsByLines toLowerCase text sectionNames)
             (normalize c)).
Proof.
  intros Hc. unfold extractSectionsByLines. apply fillSections_is_Some.
  apply list_elem_of_fmap. exists c. done.
Qed.

(** The property of a candidate that matches no line is the empty string,
    for a candidate whose normalized form [Object.prototype] does not
    define. *)
Lemma unmatched_candidate_is_empty
    (text : jsstring) (sectionNames : list jsstring) (c : jsstring) :
  c ∈ sectionNames ->
  Obj.inherited (normalize c) = false ->
  (forall line, line ∈ linesOf text ->
     headerMatches (normalize line) (normalize c) = false) ->
  Obj.get (extractSectionsByLines toLowerCase text sectionNames) (normalize c)
  = Some [].
Proof.
  intros Hc Hown Hno. unfold extractSectionsByLines.
  apply fillSections_unmatched; [|
    rewrite sectionIndicesOf_lookup by done; by apply firstMatch_None | done].
  apply list_elem_of_fmap. exists c. done.
Qed.

(** The property of a candidate whose normalized form is an inherited name
    is the whole text, whatever the lines are. *)
Lemma inherited_candidate_is_whole_text
    (text : jsstring) (sectionNames : list jsstring) (c : jsstring) :
  c ∈ sectionNames ->
  Obj.inherited (normalize c) = true ->
  Obj.get (extractSectionsByLines toLowerCase text sectionNames) (normalize c)
  = Some (Js.trim (Js.join [10] (linesOf text))).
Proof.
  intros Hc Hinh. unfold extractSectionsByLines.
  apply fillSections_inherited;
    [| by apply sectionIndicesOf_inherited | done].
  apply list_elem_of_fmap. exists c. done.
Qed.

(** The index recorded for a candidate whose normalized form
    [Object.prototype] does not define is the index of the first line whose
    normalized form equals, contains or is contained in the normalized
    candidate. *)
Lemma recorded_index_is_first_match
    (text : jsstring) (sectionNames : list jsstring) (c : jsstring) (k : nat) :
  c ∈ sectionNames ->
  Obj.inherited (normalize c) = false ->
  sectionIndicesOf toLowerCase text sectionNames !! normalize c = Some k <->
  exists line,
    linesOf text !! k = Some line
    /\ headerMatches (normalize line) (normalize c) = true
    /\ forall j line', (j < k)%nat -> linesOf text !! j = Some line' ->
         headerMatches (normalize line') (normalize c) = false.
Proof.
  intros Hc Hown. rewrite sectionIndicesOf_lookup by done.
  rewrite firstMatch_Some. split.
  - intros (i & l & -> & H). exists l. exact H.
  - intros (l & H). exists k, l. split; [done | exact H].
Qed.

End SegmenterFacts.



(** On a document without an awards section the property of [Awards] is the
    empty string. *)
Example unmatched_candidate_awards :
  Obj.get
    (extractSectionsByLines toLowerAscii (js "Jane Doe\nSkills\nPython")
       [js "Skills"; js "Awards"])
    (normalizeHeader toLowerAscii (js "Awards")) = Some [].
Proof.
  apply (unmatched_candidate_is_empty toLowerAscii
           (js "Jane Doe\nSkills\nPython") [js "Skills"; js "Awards"] (js "Awards")).
  - apply list_elem_of_further, list_elem_of_here.
  - reflexivity.
  - intros line Hline. apply list_elem_of_In in Hline. simpl in Hline.
    destruct Hline as [<-|[<-|[<-|[]]]]; reflexivity.
Qed.

(** On a document with the header [Skills] on lines 0 and 2 the recorded
    index is 0. *)
Example recorded_index_repeated_header :
  sectionIndicesOf toLowerAscii (js "Skills\nPython\nSkills\nGo") [js "Skills"]
    !! normalizeHeader toLowerAscii (js "Skills") = Some 0%nat.
Proof.
  apply (recorded_index_is_first_match toLowerAscii
           (js "Skills\nPython\nSkills\nGo") [js "Skills"] (js "Skills") 0%nat).
  - apply list_elem_of_here.
  - reflexivity.
  - exists (js "Skills"). repeat split; try reflexivity. intros j l Hj. lia.
Qed.

(** The second [Skills] line of that document is content of the section. *)
Example extractSectionsByLines_repeated_header :
  extractSectionsByLines toLowerAscii (js "Skills\nPython\nSkills\nGo")
    [js "Skills"]
  = [(js "skills", js "Python\nSkills\nGo")].
Proof. vm_compute. reflexivity. Qed.

(** ** Reads at the fixed keys *)

(** At a key that [Object.prototype] does not define, the read yields the
    own property or [undefined]. *)
Lemma read_not_inherited {V : Type} (o : Obj.t V) (k : jsstring) :
  Obj.inherited k = false ->
  Obj.read o k
  = match Obj.get o k with Some v => Obj.Own v | None => Obj.Undefined end.
Proof. intros H. unfold Obj.read. rewrite H. reflexivity. Qed.

(** Such are the keys at which the handler and the patch loop read. *)
Lemma fixed_keys_not_inherited :
  forallb (fun k => negb (Obj.inherited k))
    (Assembler.requiredKeys ++ Handler.workExperienceKeys
     ++ Handler.educationKeys ++ Handler.skillsKeys
     ++ [js "length"; js "Other"]) = true.
Proof. reflexivity. Qed.

(** Such is every key that begins with a capital, as the skill categories
    do. *)
Lemma capital_not_inherited (c : N) (r : jsstring) :
  Js.isUpper c = true -> Obj.inherited (c :: r) = false.
Proof.
  intros H. destruct (Obj.inherited (c :: r)) eqn:E; [|reflexivity].
  apply inherited_elem_of, list_elem_of_In in E.
  unfold Obj.prototypeNames in E. cbn [In] in E.
  repeat (destruct E as [E|E];
          [vm_compute in E; injection E as <- _; by vm_compute in H|]).
  destruct E.
Qed.

(** ** [parseWorkExperience] and [parseSkills] *)

Section ParserFacts.

Import WorkExperience.

(** C3. The synthetic section of the specification yields one entry with the
    title, organization, dates, location and summary of its lines, and the
    repeated bullet once. *)
Theorem parseWorkExperience_synthetic_section :
  parseWorkExperience
    (js "Senior Engineer\n(Acme Corp)\n2020 - Present\nAustin, TX\nThis is a long enough summary line.\n• Built thing one\n• Built thing one\n")
  = [ {| title := Some (js "Senior Engineer");
         organization := Some (js "Acme Corp");
         dates := Some (js "2020 - Present");
         location := Some (js "Austin, TX");
         highlights := Some [js "Built thing one"];
         summary := Some (js "This is a long enough summary line.") |} ].
Proof. vm_compute. reflexivity. Qed.

(** C10. A section whose only line is a dates line has no title-like line,
    and the parser returns one entry for it, which has no title. *)
Theorem parseWorkExperience_entry_without_title :
  forallb (fun line => negb (isTitleLine (Js.trim line)))
    (nonBlankLines (js "2020 - Present")) = true
  /\ parseWorkExperience (js "2020 - Present")
     = [ {| title := None;
            organization := None;
            dates := Some (js "2020 - Present");
            location := None;
            highlights := Some [];
            summary := None |} ].
Proof. split; vm_compute; reflexivity. Qed.

(** C4, at the input ["Languages:\nPython\nLanguages:\nGo\n"]: the second
    header assigns a new empty list, and [Python] is lost. *)
Theorem parseSkills_repeated_header_resets :
  Skills.parseSkills (js "Languages:\nPython\nLanguages:\nGo\n")
  = [(js "Languages", [js "Go"])].
Proof. vm_compute. reflexivity. Qed.

End ParserFacts.

(** The header branch of [Skills.step] leaves the empty list under the
    category, whatever was collected there. *)
Lemma skills_header_assigns_empty
    (skills : Obj.t (list jsstring)) (currentCategory line : jsstring) :
  Skills.isCategoryHeader (Js.trim line) = true ->
  Obj.get (fst (Skills.step (skills, currentCategory) line))
    (Skills.removeFirstColon (Js.trim line)) = Some [].
Proof.
  intros H. unfold Skills.step. rewrite H. simpl. apply get_set_eq.
Qed.

(** ** [buildRelevantResumeText] *)

Section DigestFacts.

Import Digest.

Local Open Scope Z_scope.

Lemma len_nonneg (s : jsstring) : 0 <= len s.
Proof. unfold len. lia. Qed.

Lemma len_app (a b : jsstring) : len (a ++ b) = len a + len b.
Proof. unfold len. rewrite length_app. lia. Qed.

(** The loop keeps [totalLength] plus what it still includes within the
    budget. *)
Lemma accumulate_bound (entries : list (jsstring * jsstring))
    (totalLength maxTotalLength : Z) :
  0 <= totalLength <= maxTotalLength ->
  totalLength + contentLength (accumulate entries totalLength maxTotalLength)
  <= maxTotalLength.
Proof.
  revert totalLength.
  induction entries as [|[name content] rest IH]; intros totalLength Hle; simpl.
  - lia.
  - pose proof (len_nonneg content) as Hc.
    destruct (Z.gtb_spec (totalLength + len content) maxTotalLength) as [Hgt|Hfit].
    + destruct (Z.gtb_spec (maxTotalLength - totalLength) 200) as [Hmin|Hmin];
        simpl; [|lia].
      unfold len. rewrite length_take. lia.
    + simpl. specialize (IH (totalLength + len content)). lia.
Qed.

Lemma join_length (sep : jsstring) (parts : list jsstring) :
  len (Js.join sep parts)
  = foldr (fun part acc => len part + acc) 0 parts
    + len sep * Z.max 0 (Z.of_nat (length parts) - 1).
Proof.
  induction parts as [|part rest IH]; [simpl; unfold len; simpl; lia|].
  destruct rest as [|part' rest'].
  - simpl. lia.
  - change (Js.join sep (part :: part' :: rest'))
      with (part ++ sep ++ Js.join sep (part' :: rest')).
    rewrite !len_app, IH. pose proof (len_nonneg sep). simpl length.
    cbn [foldr]. nia.
Qed.

Lemma block_length (e : jsstring * jsstring) :
  len (block e) = len (fst e) + 9 + len (snd e).
Proof. unfold block. rewrite !len_app. unfold len. simpl. lia. Qed.

Lemma digest_length (included : list (jsstring * jsstring)) :
  len (Js.join (js "\n\n") (List.map block included))
  = contentLength included + delimiterLength included.
Proof.
  rewrite join_length. unfold contentLength, delimiterLength.
  rewrite length_map.
  change (len (js "\n\n")) with 2.
  assert (foldr (fun part acc => len part + acc) 0 (List.map block included)
          = foldr (fun e acc => len (snd e) + acc) 0 included
            + foldr (fun e acc => len (fst e) + 9 + acc) 0 included) as ->.
  { induction included as [|e rest IH]; simpl; [lia|].
    rewrite IH, block_length. lia. }
  lia.
Qed.

(** C2. For a budget [B] (a number of characters, so not negative) the
    section contents in the digest have at most [B] characters together: the
    length of the digest is that count plus the length of the delimiters. *)
Theorem digest_content_within_budget (sections : Obj.t jsstring) (B : Z) :
  0 <= B ->
  contentLength (includedSections sections B) <= B
  /\ len (buildRelevantResumeText sections B)
     = contentLength (includedSections sections B)
       + delimiterLength (includedSections sections B).
Proof.
  intros HB. split.
  - unfold includedSections.
    pose proof (accumulate_bound (sortByLength (uniqueNonEmpty sections)) 0 B).
    lia.
  - apply digest_length.
Qed.

(** C5, at the budget 8000 with sections of 7800 and 300 characters: after
    the first section exactly 200 characters remain, and the second section
    is dropped, not truncated. *)
Theorem digest_drops_section_when_200_remain :
  includedSections
    [(js "experience", replicate (N.to_nat 7800) 120%N);
     (js "skills", replicate (N.to_nat 300) 121%N)] 8000
  = [(js "experience", replicate (N.to_nat 7800) 120%N)].
Proof. vm_compute. reflexivity. Qed.

End DigestFacts.

(** The same through the handler's calls: a document with an [Experience]
    section of 7800 characters and a [Skills] section of 300 characters, the
    handler's section names and its budget of 8000. *)
Example digest_of_document_drops_skills :
  Digest.includedSections
    (extractSectionsByLines toLowerAscii
       (js "Experience\n" ++ replicate (N.to_nat 7800) 120%N
        ++ js "\nSkills\n" ++ replicate (N.to_nat 300) 121%N)
       sectionNames)
    8000
  = [(js "work experience", replicate (N.to_nat 7800) 120%N)].
Proof. vm_compute. reflexivity. Qed.

(** C2 on a two-section map with the budget 250. *)
Lemma digest_content_within_budget_witness :
  (Digest.contentLength
     (Digest.includedSections
        [(js "skills", js "Python, Go, Rust");
         (js "experience", replicate (N.to_nat 300) 120%N)] 250)
   <= 250)%Z.
Proof.
  apply (digest_content_within_budget
           [(js "skills", js "Python, Go, Rust");
            (js "experience", replicate (N.to_nat 300) 120%N)] 250).
  lia.
Defined.

(** ** The result assembly *)

Section AssemblerFacts.

Import Assembler.

Lemma patchKey_same (fallback o : Obj.t value) (key : jsstring) :
  Obj.get (patchKey fallback o key) key
  = Some (if needsFallback (prop o key) then prop fallback key else prop o key).
Proof.
  unfold patchKey, prop. destruct (Obj.get o key) as [v|] eqn:E; simpl.
  - destruct (needsFallback v); [apply get_set_eq | exact E].
  - apply get_set_eq.
Qed.

Lemma patchKey_other (fallback o : Obj.t value) (key key' : jsstring) :
  key <> key' -> Obj.get (patchKey fallback o key) key' = Obj.get o key'.
Proof.
  intros Hne. unfold patchKey. destruct (Obj.get o key) as [v|].
  - destruct (needsFallback v); [by apply get_set_ne | done].
  - by apply get_set_ne.
Qed.

Lemma patchKeys_other (fallback : Obj.t value) (keys : list jsstring)
    (o : Obj.t value) (key : jsstring) :
  key ∉ keys -> Obj.get (foldl (patchKey fallback) o keys) key = Obj.get o key.
Proof.
  revert o. induction keys as [|k rest IH]; intros o Hnot; simpl; [done|].
  apply not_elem_of_cons in Hnot as [Hne Hnot].
  rewrite IH by done. by apply patchKey_other.
Qed.

Lemma patchKeys_lookup (fallback : Obj.t value) (keys : list jsstring)
    (o : Obj.t value) (key : jsstring) :
  NoDup keys -> key ∈ keys ->
  Obj.get (foldl (patchKey fallback) o keys) key
  = Some (if needsFallback (prop o key) then prop fallback key else prop o key).
Proof.
  revert o. induction keys as [|k rest IH]; intros o Hnd Hin; simpl.
  - by apply elem_of_nil in Hin.
  - apply NoDup_cons in Hnd as [Hk Hnd].
    apply elem_of_cons in Hin as [->|Hin].
    + rewrite patchKeys_other by done. apply patchKey_same.
    + rewrite IH by done. unfold prop.
      rewrite patchKey_other; [done|]. intros ->. done.
Qed.

Lemma requiredKeys_NoDup : NoDup requiredKeys.
Proof. apply (bool_decide_unpack _). vm_compute. reflexivity. Qed.

Lemma patchRequired_lookup (fallback o : Obj.t value) (key : jsstring) :
  key ∈ requiredKeys ->
  Obj.get (patchRequired fallback o) key
  = Some (if needsFallback (prop o key) then prop fallback key else prop o key).
Proof. apply patchKeys_lookup, requiredKeys_NoDup. Qed.

(** Every required key of [parsedFallback] has a value that is not null. *)
Lemma parsedFallback_defined (p : parsed) (key : jsstring) :
  key ∈ requiredKeys ->
  Obj.get (parsedFallback p) key = Some (prop (parsedFallback p) key)
  /\ nullish (prop (parsedFallback p) key) = false.
Proof.
  intros Hin. apply list_elem_of_In in Hin. simpl in Hin.
  destruct Hin as [<-|[<-|[<-|[<-|[<-|[<-|[<-|[]]]]]]]]; split; reflexivity.
Qed.

Lemma needsFallback_nullish (v : value) :
  needsFallback v = false -> nullish v = false.
Proof. destruct v; simpl; congruence. Qed.

(** What the patch leaves under a required key. *)
Lemma patch_lookup (academicJson : value) (p : parsed) (key : jsstring) :
  (forall s, academicJson = JStr s -> s = []) ->
  key ∈ requiredKeys ->
  exists r,
    patch academicJson p = Some r
    /\ Obj.get (own r) key
       = Some (if needsFallback (external academicJson key)
               then prop (parsedFallback p) key
               else external academicJson key).
Proof.
  intros Hstr Hin. unfold patch.
  destruct (falsy academicJson || noKeys academicJson) eqn:F.
  - eexists. split; [reflexivity|]. cbn [own external].
    rewrite (proj1 (parsedFallback_defined p key Hin)).
    assert (needsFallback (external academicJson key) = true) as ->; [|done].
    destruct academicJson as [| | | | |items|props]; try reflexivity.
    destruct props; [reflexivity | discriminate F].
  - destruct academicJson as [| |b|n|s|items|props]; try discriminate F.
    + destruct b; discriminate F.
    + destruct n; discriminate F.
    + rewrite (Hstr s eq_refl) in F. discriminate F.
    + eexists. split; [reflexivity|]. cbn [own external].
      rewrite patchRequired_lookup by done. reflexivity.
    + eexists. split; [reflexivity|]. cbn [own external].
      rewrite patchRequired_lookup by done. reflexivity.
Qed.

Lemma positionsFallback_other (p : parsed) (r : record) (key : jsstring) :
  key <> js "positions" ->
  Obj.get (own (positionsFallback p r)) key = Obj.get (own r) key.
Proof.
  intros Hne. unfold positionsFallback.
  destruct (positionsEmpty r && _); [|done]. simpl. by apply get_set_ne.
Qed.

Lemma positionsFallback_positions (p : parsed) (r : record) :
  Obj.get (own (positionsFallback p r)) (js "positions")
  = if positionsEmpty r && (0 <? length (work_experience p))%nat
    then Some (JArr (work_experience p))
    else Obj.get (own r) (js "positions").
Proof.
  unfold positionsFallback.
  destruct (positionsEmpty r && _); [|done]. simpl. apply get_set_eq.
Qed.

Lemma fallback_positions (p : parsed) :
  prop (parsedFallback p) (js "positions") = JArr (work_experience p).
Proof. reflexivity. Qed.

(** For every external output but a non-empty string (absent, an object
    with or without keys, with null or empty values), the patched object has
    every required key as an own property with a value that is not null, and
    that value is the heuristic fallback wherever the external output has
    nothing for the key.  On a non-empty array these are named properties of
    the array, which [serialized] does not have. *)
Lemma assemble_complete (academicJson : value) (p : parsed) :
  (forall s, academicJson = JStr s -> s = []) ->
  exists r,
    assemble academicJson p = Some r
    /\ forall key, key ∈ requiredKeys ->
         exists v,
           Obj.get (own r) key = Some v
           /\ nullish v = false
           /\ (needsFallback (external academicJson key) = true ->
               v = prop (parsedFallback p) key).
Proof.
  intros Hstr.
  destruct (patch_lookup academicJson p (js "profile") Hstr) as (r & Hr & _).
  { apply list_elem_of_here. }
  exists (positionsFallback p r). unfold assemble. rewrite Hr. split; [done|].
  intros key Hin.
  destruct (patch_lookup academicJson p key Hstr Hin) as (r' & Hr' & Hget).
  assert (r' = r) as -> by congruence.
  destruct (parsedFallback_defined p key Hin) as [_ Hfb].
  destruct (decide (key = js "positions")) as [->|Hne].
  - rewrite positionsFallback_positions.
    destruct (positionsEmpty r && _).
    + eexists. split; [reflexivity|]. split; [reflexivity|].
      intros _. symmetry. apply fallback_positions.
    + rewrite Hget. eexists. split; [reflexivity|].
      destruct (needsFallback (external academicJson (js "positions"))) eqn:N.
      * split; [exact Hfb | done].
      * split; [by apply needsFallback_nullish | done].
  - rewrite positionsFallback_other by done. rewrite Hget.
    eexists. split; [reflexivity|].
    destruct (needsFallback (external academicJson key)) eqn:N.
    + split; [exact Hfb | done].
    + split; [by apply needsFallback_nullish | done].
Qed.

(** C1, at two outputs of the structuring service.  Where the fenced JSON is
    the string ["n/a"], [key in academicJson] raises, the handler answers
    with status 500 and there is no record.  Where it is the array [[1]], the
    seven keys become named properties of the array, which its JSON text does
    not have: what is stored and sent is [[1]]. *)
Theorem assemble_incomplete_on_string_and_array (p : parsed) :
  assemble (JStr (js "n/a")) p = None
  /\ serialized <$> assemble (JArr [JNum 1]) p = Some (JArr [JNum 1]).
Proof.
  split; [reflexivity|].
  destruct p as [? ? ? ? [|e we] ? ?]; reflexivity.
Qed.

(** C6. With a heuristic work-experience list that is not empty: if
    [positions] is still empty after the key-by-key fallback, the final
    [positions] is the heuristic list; and if the external output has
    [positions: []], the final [positions] is the heuristic list. *)
Theorem positions_fallback_to_work_experience (p : parsed) :
  work_experience p <> [] ->
  (forall academicJson r,
     patch academicJson p = Some r -> positionsEmpty r = true ->
     exists r',
       assemble academicJson p = Some r'
       /\ Obj.get (own r') (js "positions") = Some (JArr (work_experience p)))
  /\ (forall props,
        Obj.get props (js "positions") = Some (JArr []) ->
        exists r',
          assemble (JObj props) p = Some r'
          /\ Obj.get (own r') (js "positions") = Some (JArr (work_experience p))).
Proof.
  intros Hwe.
  assert ((0 <? length (work_experience p))%nat = true) as Hlen.
  { destruct (work_experience p); [done | reflexivity]. }
  split.
  - intros academicJson r Hr Hempty.
    exists (positionsFallback p r). unfold assemble. rewrite Hr. split; [done|].
    rewrite positionsFallback_positions, Hempty, Hlen. reflexivity.
  - intros props Hprops.
    destruct (patch_lookup (JObj props) p (js "positions")) as (r & Hr & Hget).
    { intros s [=]. }
    { apply list_elem_of_further, list_elem_of_further, list_elem_of_here. }
    exists (positionsFallback p r). unfold assemble. rewrite Hr. split; [done|].
    simpl in Hget. unfold prop in Hget. rewrite Hprops in Hget. simpl in Hget.
    rewrite positionsFallback_positions.
    destruct (positionsEmpty r && _); [reflexivity|]. exact Hget.
Qed.

End AssemblerFacts.

(** An external output with a null profile, an empty skills mapping and
    five keys missing. *)
Lemma assemble_complete_witness :
  exists r,
    Assembler.assemble
      (Assembler.JObj [(js "profile", Assembler.JNull);
                       (js "skills", Assembler.JObj [])])
      (Assembler.Parsed (js "Jane Doe") (js "jane@example.com") [] []
         [Assembler.JObj [(js "title", Assembler.JStr (js "Senior Engineer"))]]
         [] [])
    = Some r
    /\ forall key, key ∈ Assembler.requiredKeys ->
         exists v,
           Obj.get (Assembler.own r) key = Some v
           /\ Assembler.nullish v = false
           /\ (Assembler.needsFallback
                 (Assembler.external
                    (Assembler.JObj [(js "profile", Assembler.JNull);
                                     (js "skills", Assembler.JObj [])]) key)
               = true ->
               v = Assembler.prop
                     (Assembler.parsedFallback
                        (Assembler.Parsed (js "Jane Doe") (js "jane@example.com")
                           [] []
                           [Assembler.JObj
                              [(js "title", Assembler.JStr (js "Senior Engineer"))]]
                           [] []))
                     key).
Proof.
  apply (assemble_complete
           (Assembler.JObj [(js "profile", Assembler.JNull);
                            (js "skills", Assembler.JObj [])])).
  intros s Hs. discriminate Hs.
Defined.

(** The shapes that the specification names, evaluated. *)
Example assemble_absent (p : Assembler.parsed) :
  Assembler.assemble Assembler.JNull p
  = Some (Assembler.Record_ [] (Assembler.parsedFallback p)).
Proof. destruct p as [? ? ? ? [|e we] ? ?]; reflexivity. Qed.

Example assemble_empty_object (p : Assembler.parsed) :
  Assembler.assemble (Assembler.JObj []) p
  = Some (Assembler.Record_ [] (Assembler.parsedFallback p)).
Proof. destruct p as [? ? ? ? [|e we] ? ?]; reflexivity. Qed.

(** On an object the named properties are all that is sent. *)
Example serialized_object (p : Assembler.parsed) :
  Assembler.serialized <$> Assembler.assemble (Assembler.JObj []) p
  = Some (Assembler.JObj (Assembler.parsedFallback p)).
Proof. destruct p as [? ? ? ? [|e we] ? ?]; reflexivity. Qed.

(** C6 with [positions: []] and a heuristic list of two entries. *)
Lemma positions_fallback_to_work_experience_witness :
  exists r,
    Assembler.assemble
      (Assembler.JObj [(js "positions", Assembler.JArr [])])
      (Assembler.Parsed [] [] [] []
         [Assembler.JObj [(js "title", Assembler.JStr (js "Senior Engineer"))];
          Assembler.JObj [(js "title", Assembler.JStr (js "Software Intern"))]]
         [] [])
    = Some r
    /\ Obj.get (Assembler.own r) (js "positions")
       = Some (Assembler.JArr
                 [Assembler.JObj [(js "title", Assembler.JStr (js "Senior Engineer"))];
                  Assembler.JObj [(js "title", Assembler.JStr (js "Software Intern"))]]).
Proof.
  destruct (positions_fallback_to_work_experience
              (Assembler.Parsed [] [] [] []
                 [Assembler.JObj [(js "title", Assembler.JStr (js "Senior Engineer"))];
                  Assembler.JObj [(js "title", Assembler.JStr (js "Software Intern"))]]
                 [] [])) as [_ Hempty].
  - discriminate.
  - apply (Hempty [(js "positions", Assembler.JArr [])]). reflexivity.
Defined.

(** The last [if] at work: [positions: ""] survives the key-by-key fallback
    and is then replaced by the heuristic list. *)
Example positions_empty_string_replaced :
  Assembler.assemble
    (Assembler.JObj [(js "positions", Assembler.JStr [])])
    (Assembler.Parsed [] [] [] [] [Assembler.JNum 1; Assembler.JNum 2] [] [])
  = Some
      (Assembler.Record_ []
         (Obj.set
            (Assembler.patchRequired
               (Assembler.parsedFallback
                  (Assembler.Parsed [] [] [] []
                     [Assembler.JNum 1; Assembler.JNum 2] [] []))
               [(js "positions", Assembler.JStr [])])
            (js "positions")
            (Assembler.JArr [Assembler.JNum 1; Assembler.JNum 2]))).
Proof. vm_compute. reflexivity. Qed.

(** * Further properties of the code *)

(** ** The shape of a normalized header *)

Section NormalizeHeaderShape.

Import Js.

Variable toLowerCase : jsstring -> jsstring.

Lemma trimEnd_last (s : jsstring) (c : N) :
  last (trimEnd s) = Some c -> isWhiteSpace c = false.
Proof.
  induction s as [|d r IH]; [done|]. rewrite trimEnd_cons.
  destruct (trimEnd r) as [|e r'] eqn:E; simpl.
  - destruct (isWhiteSpace d) eqn:W; simpl; [done|]. intros [= <-]. exact W.
  - intros H. apply IH. destruct r'; exact H.
Qed.

Lemma startsWith_cons (b a : N) (s p : jsstring) :
  startsWith (b :: s) (a :: p) = (a =? b) && startsWith s p.
Proof. reflexivity. Qed.

Lemma spaced_no_double (b : bool) (s : jsstring) :
  spaced b s = true -> includes s [32; 32] = false.
Proof.
  revert b. induction s as [|c r IH]; intros b H; [reflexivity|].
  cbn [includes]. apply orb_false_intro.
  - rewrite startsWith_cons. destruct (N.eqb_spec 32 c) as [<-|]; [|reflexivity].
    destruct r as [|d r']; [reflexivity|]. rewrite startsWith_cons.
    destruct (N.eqb_spec 32 d) as [<-|]; [|reflexivity].
    simpl in H. destruct b; discriminate H.
  - simpl in H. destruct (isWhiteSpace c).
    + apply andb_prop in H as [_ H]. exact (IH true H).
    + exact (IH false H).
Qed.

(** X1. Whatever [toLowerCase] does, a normalized header consists of the
    letters [a]-[z], digits and spaces; it neither begins nor ends with a
    space, and no two spaces are adjacent in it. *)
Theorem normalizeHeader_shape (str : jsstring) :
  forallb (fun c => isLower c || isDigit c || (c =? 32))
    (normalizeHeader toLowerCase str) = true
  /\ head (normalizeHeader toLowerCase str) <> Some 32
  /\ last (normalizeHeader toLowerCase str) <> Some 32
  /\ includes (normalizeHeader toLowerCase str) (js "  ") = false.
Proof.
  split; [apply normalizeHeader_kept|]. split; [|split].
  - unfold normalizeHeader, trim.
    pose proof (trimEnd_startsClean _
      (trimStart_startsClean
         (collapseSpaces false (stripOthers (replaceAmpersand (toLowerCase str))))))
      as H.
    destruct (trimEnd _) as [|c r]; [done|]. simpl in *.
    intros [= ->]. discriminate H.
  - unfold normalizeHeader, trim. intros H. apply trimEnd_last in H. discriminate H.
  - apply (spaced_no_double false), normalizeHeader_spaced.
Qed.

End NormalizeHeaderShape.

(** ** Keys and values of enumerated objects *)

Section ObjKeys.

Context {V : Type}.

Lemma get_is_Some (o : Obj.t V) (k : jsstring) :
  is_Some (Obj.get o k) <-> k ∈ List.map fst o.
Proof.
  induction o as [|[k0 v0] r IH]; simpl.
  - split; [intros [? [=]] | intros H; by apply elem_of_nil in H].
  - unfold Js.eqb. rewrite elem_of_cons. case_bool_decide as E; simpl.
    + split; [auto | by eexists].
    + rewrite IH. split; [auto | intros [-> |]; done].
Qed.

Lemma get_elem_of (o : Obj.t V) (k : jsstring) (v : V) :
  Obj.get o k = Some v -> (k, v) ∈ o.
Proof.
  induction o as [|[k0 v0] r IH]; simpl; [done|].
  unfold Js.eqb. case_bool_decide as E.
  - intros [= ->]. subst. apply list_elem_of_here.
  - intros H. apply list_elem_of_further, IH, H.
Qed.

Lemma set_keys (o : Obj.t V) (k : jsstring) (v : V) :
  List.map fst (Obj.set o k v)
  = if bool_decide (k ∈ List.map fst o) then List.map fst o
    else List.map fst o ++ [k].
Proof.
  induction o as [|[k0 v0] r IH]; simpl; [reflexivity|].
  unfold Js.eqb. destruct (decide (k0 = k)) as [->|Hne].
  - rewrite (bool_decide_eq_true_2 (k = k)) by done.
    rewrite bool_decide_eq_true_2 by apply list_elem_of_here. reflexivity.
  - rewrite (bool_decide_eq_false_2 (k0 = k)) by done. simpl. rewrite IH.
    destruct (decide (k ∈ List.map fst r)) as [Hin|Hnot].
    + rewrite !bool_decide_eq_true_2; [reflexivity | by apply list_elem_of_further | done].
    + rewrite !bool_decide_eq_false_2; [reflexivity | | done].
      rewrite elem_of_cons. intros [-> |]; done.
Qed.

Lemma set_keys_elem_of (o : Obj.t V) (k k' : jsstring) (v : V) :
  k' ∈ List.map fst (Obj.set o k v) <-> k' ∈ List.map fst o \/ k' = k.
Proof.
  rewrite set_keys. destruct (decide (k ∈ List.map fst o)) as [Hin|Hnot].
  - rewrite bool_decide_eq_true_2 by done. split; [auto | intros [?| ->]; done].
  - rewrite bool_decide_eq_false_2 by done.
    rewrite elem_of_app, list_elem_of_singleton. done.
Qed.

Lemma set_keys_NoDup (o : Obj.t V) (k : jsstring) (v : V) :
  NoDup (List.map fst o) -> NoDup (List.map fst (Obj.set o k v)).
Proof.
  intros H. rewrite set_keys. case_bool_decide as E; [done|].
  apply NoDup_app. split; [done|]. split.
  - intros x Hx Hk. apply list_elem_of_singleton in Hk. by subst.
  - apply NoDup_singleton.
Qed.

Lemma set_elem_of (o : Obj.t V) (k k' : jsstring) (v v' : V) :
  (k', v') ∈ Obj.set o k v -> (k', v') ∈ o \/ (k' = k /\ v' = v).
Proof.
  induction o as [|[k0 v0] r IH]; simpl.
  - intros H. apply list_elem_of_singleton in H as [= -> ->]. by right.
  - unfold Js.eqb. case_bool_decide as E; rewrite !elem_of_cons.
    + intros [[= -> ->]|H]; [by right; subst | by left; right].
    + intros [H|H]; [by left; left|].
      destruct (IH H) as [?|?]; [by left; right | by right].
Qed.

(** Assigning the value that a property already has changes nothing. *)
Lemma set_same (o : Obj.t V) (k : jsstring) (v : V) :
  Obj.get o k = Some v -> Obj.set o k v = o.
Proof.
  induction o as [|[k0 v0] r IH]; simpl; [done|].
  unfold Js.eqb. case_bool_decide as E.
  - intros [= ->]. reflexivity.
  - intros H. rewrite (IH H). reflexivity.
Qed.

End ObjKeys.

(** ** More on [extractSectionsByLines] *)

Section SegmenterKeys.

Variable toLowerCase : jsstring -> jsstring.

#[local] Abbreviation normalize := (normalizeHeader toLowerCase) (only parsing).

Lemma fillSections_keys (lines : list jsstring) (indices : gmap (list N) nat)
    (names : list jsstring) (result : Obj.t jsstring) (k : jsstring) :
  k ∈ List.map fst (fillSections lines indices names result)
  <-> k ∈ List.map fst result \/ k ∈ names.
Proof.
  revert result. induction names as [|n later IH]; intros result; simpl.
  - split; [auto | intros [?|H]; [done | by apply elem_of_nil in H]].
  - rewrite IH, set_keys_elem_of, elem_of_cons. tauto.
Qed.

Lemma fillSections_NoDup (lines : list jsstring) (indices : gmap (list N) nat)
    (names : list jsstring) (result : Obj.t jsstring) :
  NoDup (List.map fst result) ->
  NoDup (List.map fst (fillSections lines indices names result)).
Proof.
  revert result. induction names as [|n later IH]; intros result H; simpl; [done|].
  apply IH, set_keys_NoDup, H.
Qed.

Lemma sectionText_trimmed (lines : list jsstring) (indices : gmap (list N) nat)
    (section : jsstring) (later : list jsstring) :
  Js.trim (sectionText lines indices section later)
  = sectionText lines indices section later.
Proof.
  unfold sectionText.
  destruct (readIndex indices section);
    [apply trim_trim | apply trim_trim | reflexivity].
Qed.

Lemma fillSections_trimmed (lines : list jsstring) (indices : gmap (list N) nat)
    (names : list jsstring) (result : Obj.t jsstring) :
  (forall k v, (k, v) ∈ result -> Js.trim v = v) ->
  forall k v, (k, v) ∈ fillSections lines indices names result -> Js.trim v = v.
Proof.
  revert result. induction names as [|n later IH]; intros result H; simpl; [done|].
  apply IH. intros k v Hkv. apply set_elem_of in Hkv as [Hkv|[-> ->]].
  - by apply (H k).
  - apply sectionText_trimmed.
Qed.

(** The keys of the result are the normalized candidate names. *)
Lemma sections_key_iff
    (text : jsstring) (sectionNames : list jsstring) (k : jsstring) :
  is_Some (Obj.get (extractSectionsByLines toLowerCase text sectionNames) k)
  <-> exists c, c ∈ sectionNames /\ k = normalize c.
Proof.
  unfold extractSectionsByLines. rewrite get_is_Some, fillSections_keys. split.
  - intros [H|H]; [by apply elem_of_nil in H|].
    apply list_elem_of_fmap in H as (c & Hk & Hc). by exists c.
  - intros (c & Hc & Hk). right. apply list_elem_of_fmap. by exists c.
Qed.

Lemma sections_key_kept
    (text : jsstring) (sectionNames : list jsstring) (k : jsstring) :
  is_Some (Obj.get (extractSectionsByLines toLowerCase text sectionNames) k) ->
  kept k = true.
Proof.
  intros H. apply sections_key_iff in H as (c & _ & ->).
  apply normalizeHeader_kept.
Qed.

(** X2. [Object.keys] of the result lists each normalized candidate name
    once and nothing else: the own properties of the result are those of the
    normalized candidate names. *)
Theorem extractSectionsByLines_keys
    (text : jsstring) (sectionNames : list jsstring) :
  NoDup (Obj.keys (extractSectionsByLines toLowerCase text sectionNames))
  /\ forall k,
       k ∈ Obj.keys (extractSectionsByLines toLowerCase text sectionNames)
       <-> exists c, c ∈ sectionNames /\ k = normalize c.
Proof.
  split.
  - unfold extractSectionsByLines. apply fillSections_NoDup. apply NoDup_nil_2.
  - intros k. unfold Obj.keys. rewrite <- get_is_Some. apply sections_key_iff.
Qed.

(** X3. A key with a code unit other than [a]-[z], a digit or a space (an
    ampersand, a capital) is never an own property of the result: the read
    at such a key is [undefined], or, at a name of [Object.prototype] such as
    [toString], the inherited member. *)
Theorem extractSectionsByLines_no_such_key
    (text : jsstring) (sectionNames : list jsstring) (k : jsstring) :
  kept k = false ->
  (k ∉ Obj.keys (extractSectionsByLines toLowerCase text sectionNames))
  /\ Obj.read (extractSectionsByLines toLowerCase text sectionNames) k
     = if Obj.inherited k then Obj.Inherited else Obj.Undefined.
Proof.
  intros Hk.
  assert (Obj.get (extractSectionsByLines toLowerCase text sectionNames) k = None)
    as Hnone.
  { destruct (Obj.get _ k) as [v|] eqn:E; [|reflexivity].
    assert (kept k = true) as Hkept.
    { apply (sections_key_kept text sectionNames). rewrite E. by eexists. }
    congruence. }
  split.
  - unfold Obj.keys. rewrite <- get_is_Some, Hnone. by intros [? ?].
  - unfold Obj.read. rewrite Hnone. reflexivity.
Qed.

(** X4. The three keys with an ampersand that the handler reads are never
    defined in the sections it has extracted. *)
Theorem handler_ampersand_keys_undefined (text : jsstring) :
  Obj.get (Handler.sectionsOf toLowerCase text) (js "founder & product experience")
  = None
  /\ Obj.get (Handler.sectionsOf toLowerCase text) (js "skills & interests") = None
  /\ Obj.get (Handler.sectionsOf toLowerCase text) (js "laboratory & fields") = None.
Proof.
  assert (forall k, kept k = false ->
                    Obj.get (Handler.sectionsOf toLowerCase text) k = None) as Hnone.
  { intros k Hk. unfold Handler.sectionsOf.
    destruct (Obj.get _ k) as [v|] eqn:E; [|reflexivity].
    assert (kept k = true) as Hkept.
    { apply (sections_key_kept text sectionNames). rewrite E. by eexists. }
    congruence. }
  repeat split; apply Hnone; reflexivity.
Qed.

(** X5. No section text begins or ends with white space. *)
Theorem extractSectionsByLines_trimmed
    (text : jsstring) (sectionNames : list jsstring) (k v : jsstring) :
  Obj.get (extractSectionsByLines toLowerCase text sectionNames) k = Some v ->
  Js.trim v = v.
Proof.
  intros H. apply get_elem_of in H. revert H.
  apply fillSections_trimmed. intros k' v' H'. by apply elem_of_nil in H'.
Qed.

Lemma includes_nil (s : jsstring) : Js.includes s [] = true.
Proof. destruct s; reflexivity. Qed.

Lemma headerMatches_empty_line (section : jsstring) :
  headerMatches [] section = true.
Proof.
  unfold headerMatches. rewrite (includes_nil section). apply orb_true_r.
Qed.

(** X6. A line whose normalized form is empty (a blank line, a line of
    punctuation) matches every candidate: each candidate whose normalized
    form is not a name of [Object.prototype] (that is, is not [constructor])
    has a recorded start, at that line or before it. *)
Theorem blank_line_matches_every_candidate
    (text : jsstring) (sectionNames : list jsstring) (c line : jsstring) (k : nat) :
  c ∈ sectionNames ->
  Obj.inherited (normalize c) = false ->
  linesOf text !! k = Some line ->
  normalize line = [] ->
  exists i,
    sectionIndicesOf toLowerCase text sectionNames !! normalize c = Some i
    /\ (i <= k)%nat.
Proof.
  intros Hc Hown Hk Hblank.
  assert (headerMatches (normalize line) (normalize c) = true) as Hm.
  { rewrite Hblank. apply headerMatches_empty_line. }
  destruct (firstMatch_is_Some toLowerCase (normalize c) (linesOf text) 0 k line Hk Hm)
    as [i E].
  exists i. rewrite sectionIndicesOf_lookup by done. split; [done|].
  apply firstMatch_Some in E as (i' & l & -> & Hl & _ & Hmin). simpl.
  destruct (decide (i' <= k)%nat) as [|Hgt]; [done|].
  rewrite (Hmin k line) in Hm; [done | lia | done].
Qed.

End SegmenterKeys.

(** X2 on two candidates with one normalized form. *)
Lemma extractSectionsByLines_keys_witness :
  Obj.keys
    (extractSectionsByLines toLowerAscii (js "Skills\nPython")
       [js "Skills"; js "SKILLS:"; js "Awards"])
  = [js "skills"; js "awards"]
  /\ NoDup (Obj.keys
              (extractSectionsByLines toLowerAscii (js "Skills\nPython")
                 [js "Skills"; js "SKILLS:"; js "Awards"])).
Proof.
  split; [reflexivity|].
  apply (extractSectionsByLines_keys toLowerAscii (js "Skills\nPython")
           [js "Skills"; js "SKILLS:"; js "Awards"]).
Defined.

(** X3 at a key of the handler. *)
Lemma extractSectionsByLines_no_such_key_witness :
  Obj.read
    (extractSectionsByLines toLowerAscii
       (js "Founder & Product Experience\nBuilt a thing")
       [js "Founder & Product Experience"])
    (js "founder & product experience") = Obj.Undefined.
Proof.
  apply (extractSectionsByLines_no_such_key toLowerAscii
           (js "Founder & Product Experience\nBuilt a thing")
           [js "Founder & Product Experience"]
           (js "founder & product experience")).
  reflexivity.
Defined.

(** X5 on a document with indented content. *)
Lemma extractSectionsByLines_trimmed_witness :
  Js.trim (js "Python\n\nGo") = js "Python\n\nGo".
Proof.
  apply (extractSectionsByLines_trimmed toLowerAscii
           (js "Skills\n  Python  \n\n  Go  \n") [js "Skills"]
           (js "skills") (js "Python\n\nGo")).
  vm_compute. reflexivity.
Defined.

(** X6 on a document whose second line is blank. *)
Lemma blank_line_matches_every_candidate_witness :
  exists i,
    sectionIndicesOf toLowerAscii (js "Jane Doe\n\nSkills\nPython")
      [js "Skills"; js "Awards"]
    !! normalizeHeader toLowerAscii (js "Awards") = Some i
    /\ (i <= 1)%nat.
Proof.
  apply (blank_line_matches_every_candidate toLowerAscii
           (js "Jane Doe\n\nSkills\nPython") [js "Skills"; js "Awards"]
           (js "Awards") [] 1%nat).
  - apply list_elem_of_further, list_elem_of_here.
  - reflexivity.
  - reflexivity.
  - reflexivity.
Defined.

(** ** [cleanArray] *)

Section CleanArrayFacts.

Lemma has_true (s : JsSet.t) (x : jsstring) : JsSet.has s x = true <-> x ∈ s.
Proof.
  unfold JsSet.has, Js.eqb. rewrite existsb_exists. split.
  - intros (y & Hy & E). apply bool_decide_eq_true in E. subst.
    by apply list_elem_of_In.
  - intros H. exists x. split; [by apply list_elem_of_In|].
    by apply bool_decide_eq_true.
Qed.

Lemma add_elem_of (s : JsSet.t) (x y : jsstring) :
  y ∈ JsSet.add s x <-> y ∈ s \/ y = x.
Proof.
  unfold JsSet.add. destruct (JsSet.has s x) eqn:E.
  - apply has_true in E. split; [auto | intros [?| ->]; done].
  - rewrite elem_of_app, list_elem_of_singleton. done.
Qed.

Lemma add_NoDup (s : JsSet.t) (x : jsstring) : NoDup s -> NoDup (JsSet.add s x).
Proof.
  intros H. unfold JsSet.add. destruct (JsSet.has s x) eqn:E; [done|].
  apply NoDup_app. split; [done|]. split; [|apply NoDup_singleton].
  intros y Hy Hx. apply list_elem_of_singleton in Hx. subst.
  apply has_true in Hy. congruence.
Qed.

Lemma foldl_add_elem_of (l : list jsstring) (acc : JsSet.t) (y : jsstring) :
  y ∈ foldl JsSet.add acc l <-> y ∈ acc \/ y ∈ l.
Proof.
  revert acc. induction l as [|x l IH]; intros acc; simpl.
  - split; [auto | intros [?|H]; [done | by apply elem_of_nil in H]].
  - rewrite IH, add_elem_of, elem_of_cons. tauto.
Qed.

Lemma foldl_add_NoDup (l : list jsstring) (acc : JsSet.t) :
  NoDup acc -> NoDup (foldl JsSet.add acc l).
Proof.
  revert acc. induction l as [|x l IH]; intros acc H; simpl; [done|].
  apply IH, add_NoDup, H.
Qed.

Lemma foldl_add_fresh (l : list jsstring) (acc : JsSet.t) :
  NoDup (acc ++ l) -> foldl JsSet.add acc l = acc ++ l.
Proof.
  revert acc. induction l as [|x l IH]; intros acc H; simpl.
  - by rewrite app_nil_r.
  - assert (JsSet.add acc x = acc ++ [x]) as ->.
    { unfold JsSet.add. destruct (JsSet.has acc x) eqn:E; [|done].
      apply has_true in E. apply NoDup_app in H as (_ & H & _).
      destruct (H x E). apply list_elem_of_here. }
    rewrite IH; rewrite <- app_assoc; done.
Qed.

Lemma cleanArray_elem_of (arr : list jsstring) (x : jsstring) :
  x ∈ cleanArray arr <-> x <> [] /\ exists y, y ∈ arr /\ Js.trim y = x.
Proof.
  unfold cleanArray, JsSet.ofArray. rewrite foldl_add_elem_of.
  rewrite list_elem_of_In, filter_In, in_map_iff. split.
  - intros [H|(Hx & Hne)]; [by apply elem_of_nil in H|].
    destruct Hx as (y & Hy & Hin). split.
    + intros ->. discriminate Hne.
    + exists y. split; [by apply list_elem_of_In | done].
  - intros (Hne & y & Hin & Hy). right. split.
    + exists y. split; [done | by apply list_elem_of_In].
    + destruct x; [done | reflexivity].
Qed.

Lemma cleanArray_NoDup (arr : list jsstring) : NoDup (cleanArray arr).
Proof. apply foldl_add_NoDup, NoDup_nil_2. Qed.

(** X7. The result of [cleanArray] has no duplicates; its elements are the
    trimmed elements of the array that are not empty. *)
Theorem cleanArray_spec (arr : list jsstring) :
  NoDup (cleanArray arr)
  /\ forall x, x ∈ cleanArray arr <-> x <> [] /\ exists y, y ∈ arr /\ Js.trim y = x.
Proof.
  split.
  - unfold cleanArray, JsSet.ofArray. apply foldl_add_NoDup, NoDup_nil_2.
  - intros x. apply cleanArray_elem_of.
Qed.

(** X8. [cleanArray] is idempotent. *)
Theorem cleanArray_idempotent (arr : list jsstring) :
  cleanArray (cleanArray arr) = cleanArray arr.
Proof.
  pose proof (cleanArray_NoDup arr) as Hnd.
  pose proof (cleanArray_elem_of arr) as Hin.
  assert (List.map Js.trim (cleanArray arr) = cleanArray arr) as Hmap.
  { rewrite <- (map_id (cleanArray arr)) at 2. apply map_ext_in.
    intros x Hx. apply list_elem_of_In, Hin in Hx as (_ & y & _ & <-).
    apply trim_trim. }
  assert (List.filter (fun x => negb (Js.isEmpty x)) (cleanArray arr) = cleanArray arr)
    as Hfilter.
  { apply forallb_filter_id, forallb_forall. intros x Hx.
    apply list_elem_of_In, Hin in Hx as (Hne & _). destruct x; done. }
  unfold cleanArray at 1. rewrite Hmap, Hfilter.
  unfold JsSet.ofArray. apply (foldl_add_fresh _ []). exact Hnd.
Qed.

End CleanArrayFacts.

(** ** Entries of [parseWorkExperience] and [parseEducation] *)

Section EntryFacts.

Lemma tail_app_last {A} (l : list A) (x y : A) :
  tail ((l ++ [x]) ++ [y]) = tail (l ++ [x]) ++ [y].
Proof. destruct l; reflexivity. Qed.

Lemma Forall_tail_replace {A} (P : A -> Prop) (l : list A) (x y : A) :
  Forall P (tail (l ++ [x])) -> (P x -> P y) -> Forall P (tail (l ++ [y])).
Proof.
  destruct l as [|a l]; simpl; [constructor|].
  intros H Hxy. apply Forall_app in H as [H Hx]. apply Forall_app. split; [done|].
  constructor; [|constructor]. apply Hxy. by apply Forall_inv in Hx.
Qed.

Lemma Forall_tail_prefix {A} (P : A -> Prop) (l : list A) (x : A) :
  Forall P (tail (l ++ [x])) -> Forall P (tail l).
Proof.
  destruct l as [|a l]; simpl; [constructor|].
  intros H. by apply Forall_app in H as [H _].
Qed.

#[local] Ltac split_step :=
  repeat match goal with
         | |- context [if ?b then _ else _] => destruct b eqn:?
         | |- context [match ?o with Some _ => _ | None => _ end] => destruct o eqn:?
         end.

Import WorkExperience.

Lemma hasKeys_title (e : entry) : hasKeys e = false -> title e = None.
Proof. unfold hasKeys. destruct (title e); [discriminate | reflexivity]. Qed.

Lemma step_titles (st : state) (line : jsstring) :
  omap title (fst (step st line) ++ [snd (step st line)])
  = omap title (fst st ++ [snd st])
    ++ (if isTitleLine (Js.trim line) then [Js.trim line] else []).
Proof.
  destruct st as [exps cur]. unfold step.
  destruct (isTitleLine (Js.trim line)) eqn:T.
  - destruct (hasKeys cur) eqn:K; cbn [fst snd].
    + rewrite (omap_app _ (exps ++ [cur])). reflexivity.
    + rewrite !omap_app. simpl. rewrite (hasKeys_title cur K).
      by rewrite app_nil_r.
  - split_step; cbn [fst snd]; rewrite ?app_nil_r, ?omap_app; reflexivity.
Qed.

Lemma step_tail_titled (st : state) (line : jsstring) :
  Forall (fun e => is_Some (title e)) (tail (fst st ++ [snd st])) ->
  Forall (fun e => is_Some (title e))
    (tail (fst (step st line) ++ [snd (step st line)])).
Proof.
  destruct st as [exps cur]. unfold step. cbn [fst snd]. intros H.
  destruct (isTitleLine (Js.trim line)) eqn:T.
  - destruct (hasKeys cur); cbn [fst snd].
    + rewrite tail_app_last. apply Forall_app. split; [done|].
      constructor; [by eexists | constructor].
    + eapply Forall_tail_replace; [exact H | intros _; by eexists].
  - split_step; cbn [fst snd]; try exact H;
      (eapply Forall_tail_replace; [exact H | intros Hc; exact Hc]).
Qed.

Lemma foldl_step_titles (lines : list jsstring) (st : state) :
  omap title (fst (foldl step st lines) ++ [snd (foldl step st lines)])
  = omap title (fst st ++ [snd st])
    ++ List.filter isTitleLine (List.map Js.trim lines).
Proof.
  revert st. induction lines as [|line rest IH]; intros st; simpl.
  - by rewrite app_nil_r.
  - rewrite IH, step_titles, <- app_assoc. f_equal.
    destruct (isTitleLine (Js.trim line)); reflexivity.
Qed.

Lemma foldl_step_tail_titled (lines : list jsstring) (st : state) :
  Forall (fun e => is_Some (title e)) (tail (fst st ++ [snd st])) ->
  Forall (fun e => is_Some (title e))
    (tail (fst (foldl step st lines) ++ [snd (foldl step st lines)])).
Proof.
  revert st. induction lines as [|line rest IH]; intros st H; simpl; [done|].
  apply IH, step_tail_titled, H.
Qed.

Lemma omap_title_finish (l : list entry) :
  omap title (List.map finish l) = omap title l.
Proof.
  induction l as [|e l IH]; [done|].
  change (List.map finish (e :: l)) with ([finish e] ++ List.map finish l).
  change (e :: l) with ([e] ++ l).
  rewrite !omap_app, IH. reflexivity.
Qed.

(** X9. The titles of the returned entries, in order, are exactly the
    title-like lines of the text (trimmed); every entry after the first has
    a title. *)
Theorem parseWorkExperience_titles (text : jsstring) :
  omap title (parseWorkExperience text)
  = List.filter isTitleLine (List.map Js.trim (nonBlankLines text))
  /\ Forall (fun e => is_Some (title e)) (tail (parseWorkExperience text)).
Proof.
  unfold parseWorkExperience. destruct text as [|c text']; [split; done|].
  cbn [Js.isEmpty]. set (text := c :: text').
  pose proof (foldl_step_titles (nonBlankLines text) ([], empty)) as Ht.
  change (omap title (fst ([], empty) ++ [snd ([], empty)])) with (@nil (list N)) in Ht.
  rewrite app_nil_l in Ht.
  pose proof (foldl_step_tail_titled (nonBlankLines text) ([], empty)) as Hf.
  destruct (foldl step ([], empty) (nonBlankLines text)) as [exps cur].
  cbn [fst snd] in *. rewrite omap_title_finish.
  specialize (Hf ltac:(constructor)).
  assert (forall l : list entry,
            Forall (fun e => is_Some (title e)) (tail l) ->
            Forall (fun e => is_Some (title e)) (tail (List.map finish l))) as Hmap.
  { intros [|e l]; simpl; [constructor|]. intros H. apply Forall_map. exact H. }
  destruct (hasKeys cur) eqn:K.
  - split; [exact Ht | by apply Hmap].
  - split.
    + rewrite <- Ht, omap_app. simpl. rewrite (hasKeys_title cur K).
      by rewrite app_nil_r.
    + apply Hmap. by apply Forall_tail_prefix in Hf.
Qed.

(** X10. Every returned entry has a [highlights] list, which has no
    duplicates, no empty string and no string with white space around it. *)
Theorem parseWorkExperience_highlights (text : jsstring) (e : entry) :
  e ∈ parseWorkExperience text ->
  exists hs,
    highlights e = Some hs
    /\ NoDup hs
    /\ forall h, h ∈ hs -> h <> [] /\ Js.trim h = h.
Proof.
  unfold parseWorkExperience. destruct (Js.isEmpty text).
  { intros H. by apply elem_of_nil in H. }
  destruct (foldl step ([], empty) (nonBlankLines text)) as [exps cur].
  intros H. apply list_elem_of_fmap in H as (e0 & -> & _).
  eexists. split; [reflexivity|].
  pose proof (cleanArray_NoDup (default [] (highlights e0))) as Hnd.
  pose proof (cleanArray_elem_of (default [] (highlights e0))) as Hin.
  split; [exact Hnd|]. intros h Hh. apply Hin in Hh as (Hne & y & _ & <-).
  split; [exact Hne | apply trim_trim].
Qed.

End EntryFacts.

(** X10 on the synthetic section of the specification. *)
Lemma parseWorkExperience_highlights_witness :
  exists hs,
    Some [js "Built thing one"] = Some hs
    /\ NoDup hs
    /\ forall h, h ∈ hs -> h <> [] /\ Js.trim h = h.
Proof.
  apply (parseWorkExperience_highlights
           (js "Senior Engineer\n• Built thing one\n• Built thing one\n")
           (WorkExperience.Entry (Some (js "Senior Engineer")) None None None
              (Some [js "Built thing one"]) None)).
  vm_compute. apply list_elem_of_here.
Defined.

Section EducationFacts.

#[local] Ltac split_step :=
  repeat match goal with
         | |- context [if ?b then _ else _] => destruct b eqn:?
         | |- context [match ?o with Some _ => _ | None => _ end] => destruct o eqn:?
         end.

Import Education.

Lemma hasKeys_degree (e : entry) : hasKeys e = false -> degree e = None.
Proof. unfold hasKeys. destruct (degree e); [discriminate | reflexivity]. Qed.

Lemma step_degrees (st : state) (line : jsstring) :
  omap degree (fst (step st line) ++ [snd (step st line)])
  = omap degree (fst st ++ [snd st])
    ++ (if isDegreeLine (Js.trim line) then [Js.trim line] else []).
Proof.
  destruct st as [edus cur]. unfold step.
  destruct (isDegreeLine (Js.trim line)) eqn:T.
  - destruct (hasKeys cur) eqn:K; cbn [fst snd].
    + rewrite (omap_app _ (edus ++ [cur])). reflexivity.
    + rewrite !omap_app. simpl. rewrite (hasKeys_degree cur K).
      by rewrite app_nil_r.
  - split_step; cbn [fst snd]; rewrite ?app_nil_r, ?omap_app; reflexivity.
Qed.

Lemma step_tail_degreed (st : state) (line : jsstring) :
  Forall (fun e => is_Some (degree e)) (tail (fst st ++ [snd st])) ->
  Forall (fun e => is_Some (degree e))
    (tail (fst (step st line) ++ [snd (step st line)])).
Proof.
  destruct st as [edus cur]. unfold step. cbn [fst snd]. intros H.
  destruct (isDegreeLine (Js.trim line)) eqn:T.
  - destruct (hasKeys cur); cbn [fst snd].
    + rewrite tail_app_last. apply Forall_app. split; [done|].
      constructor; [by eexists | constructor].
    + eapply Forall_tail_replace; [exact H | intros _; by eexists].
  - split_step; cbn [fst snd]; try exact H;
      (eapply Forall_tail_replace; [exact H | intros Hc; exact Hc]).
Qed.

Lemma foldl_step_degrees (lines : list jsstring) (st : state) :
  omap degree (fst (foldl step st lines) ++ [snd (foldl step st lines)])
  = omap degree (fst st ++ [snd st])
    ++ List.filter isDegreeLine (List.map Js.trim lines).
Proof.
  revert st. induction lines as [|line rest IH]; intros st; simpl.
  - by rewrite app_nil_r.
  - rewrite IH, step_degrees, <- app_assoc. f_equal.
    destruct (isDegreeLine (Js.trim line)); reflexivity.
Qed.

Lemma foldl_step_tail_degreed (lines : list jsstring) (st : state) :
  Forall (fun e => is_Some (degree e)) (tail (fst st ++ [snd st])) ->
  Forall (fun e => is_Some (degree e))
    (tail (fst (foldl step st lines) ++ [snd (foldl step st lines)])).
Proof.
  revert st. induction lines as [|line rest IH]; intros st H; simpl; [done|].
  apply IH, step_tail_degreed, H.
Qed.

(** X11. The degrees of the returned entries, in order, are exactly the
    lines of the text that name a degree (trimmed); every entry after the
    first has a degree. *)
Theorem parseEducation_degrees (text : jsstring) :
  omap degree (parseEducation text)
  = List.filter isDegreeLine (List.map Js.trim (nonBlankLines text))
  /\ Forall (fun e => is_Some (degree e)) (tail (parseEducation text)).
Proof.
  unfold parseEducation. destruct text as [|c text']; [split; done|].
  cbn [Js.isEmpty]. set (text := c :: text').
  pose proof (foldl_step_degrees (nonBlankLines text) ([], empty)) as Ht.
  change (omap degree (fst ([], empty) ++ [snd ([], empty)])) with (@nil (list N)) in Ht.
  rewrite app_nil_l in Ht.
  pose proof (foldl_step_tail_degreed (nonBlankLines text) ([], empty)) as Hf.
  destruct (foldl step ([], empty) (nonBlankLines text)) as [edus cur].
  cbn [fst snd] in *. specialize (Hf ltac:(constructor)).
  destruct (hasKeys cur) eqn:K.
  - split; [exact Ht | exact Hf].
  - split.
    + rewrite <- Ht, omap_app. simpl. rewrite (hasKeys_degree cur K).
      by rewrite app_nil_r.
    + by apply Forall_tail_prefix in Hf.
Qed.

(** Every returned entry has at least one property. *)
Lemma step_keeps_keys (st : state) (line : jsstring) :
  Forall (fun e => hasKeys e = true) (fst st) ->
  Forall (fun e => hasKeys e = true) (fst (step st line)).
Proof.
  destruct st as [edus cur]. unfold step. cbn [fst]. intros H.
  split_step; cbn [fst]; try exact H.
  apply Forall_app. split; [exact H|]. by constructor.
Qed.

(** X12. [parseEducation] never returns an entry without properties. *)
Theorem parseEducation_no_empty_entry (text : jsstring) (e : entry) :
  e ∈ parseEducation text ->
  is_Some (degree e) \/ is_Some (institution e) \/ is_Some (dates e)
  \/ is_Some (location e) \/ is_Some (honors e).
Proof.
  intros He.
  assert (hasKeys e = true) as K.
  { revert He. unfold parseEducation. destruct (Js.isEmpty text).
    { intros H. by apply elem_of_nil in H. }
    assert (forall lines st,
              Forall (fun e => hasKeys e = true) (fst st) ->
              Forall (fun e => hasKeys e = true) (fst (foldl step st lines))) as Hfold.
    { induction lines as [|l rest IH]; intros st H; simpl; [done|].
      apply IH, step_keeps_keys, H. }
    specialize (Hfold (nonBlankLines text) ([], empty) ltac:(constructor)).
    destruct (foldl step ([], empty) (nonBlankLines text)) as [edus cur].
    cbn [fst] in Hfold. rewrite Forall_forall in Hfold.
    destruct (hasKeys cur) eqn:Kc.
    - rewrite elem_of_app, list_elem_of_singleton. intros [H| ->]; [|done].
      by apply Hfold.
    - apply Hfold. }
  unfold hasKeys, WorkExperience.isSet in K.
  destruct (degree e); [left; by eexists|].
  destruct (institution e); [right; left; by eexists|].
  destruct (dates e); [right; right; left; by eexists|].
  destruct (location e); [right; right; right; left; by eexists|].
  destruct (honors e); [right; right; right; right; by eexists | discriminate K].
Qed.

End EducationFacts.

(** X12 on a section with a degree and a school. *)
Lemma parseEducation_no_empty_entry_witness :
  is_Some (Some (js "BS Physics, Bachelor")) \/ is_Some (Some (js "Stanford University"))
  \/ is_Some (@None (list N)) \/ is_Some (@None (list N)) \/ is_Some (@None (list N)).
Proof.
  apply (parseEducation_no_empty_entry
           (js "BS Physics, Bachelor\nStanford University")
           (Education.Entry (Some (js "BS Physics, Bachelor"))
              (Some (js "Stanford University")) None None None)).
  vm_compute. apply list_elem_of_here.
Defined.

(** ** The result of [parseSkills] *)

Section SkillsFacts.

Import Skills.

Lemma trimStart_elem_of (s : jsstring) (c : N) : c ∈ Js.trimStart s -> c ∈ s.
Proof.
  induction s as [|d r IH]; simpl; [done|].
  destruct (Js.isWhiteSpace d); [|done]. intros H. by apply list_elem_of_further, IH.
Qed.

Lemma trimEnd_elem_of (s : jsstring) (c : N) : c ∈ Js.trimEnd s -> c ∈ s.
Proof.
  induction s as [|d r IH]; [done|]. rewrite trimEnd_cons.
  destruct (Js.isEmpty (Js.trimEnd r)).
  - destruct (Js.isWhiteSpace d); [intros H; by apply elem_of_nil in H|].
    intros H. apply list_elem_of_singleton in H as ->. apply list_elem_of_here.
  - rewrite !elem_of_cons. intros [->|H]; [by left | right; by apply IH].
Qed.

Lemma trim_elem_of (s : jsstring) (c : N) : c ∈ Js.trim s -> c ∈ s.
Proof. intros H. by apply trimStart_elem_of, trimEnd_elem_of. Qed.

Lemma split_no_separator (sep : N) (s piece : jsstring) :
  piece ∈ Js.split sep s -> sep ∉ piece.
Proof.
  revert piece. induction s as [|c r IH]; intros piece; simpl.
  - intros H. apply list_elem_of_singleton in H as ->. apply not_elem_of_nil.
  - destruct (N.eqb_spec c sep) as [->|Hne].
    + rewrite elem_of_cons. intros [->|H]; [apply not_elem_of_nil | by apply IH].
    + destruct (Js.split sep r) as [|h t] eqn:E.
      * intros H. apply list_elem_of_singleton in H as ->.
        intros H. apply list_elem_of_singleton in H. congruence.
      * rewrite elem_of_cons. intros [->|H].
        -- rewrite elem_of_cons. intros [?|?]; [congruence|].
           by apply (IH h); [apply list_elem_of_here|].
        -- apply IH. by apply list_elem_of_further.
Qed.

Lemma includes_singleton (s : jsstring) (c : N) :
  c ∈ s -> Js.includes s [c] = true.
Proof.
  induction s as [|d r IH]; [intros H; by apply elem_of_nil in H|].
  rewrite elem_of_cons. cbn [Js.includes]. intros [->|H].
  - cbn [Js.startsWith]. rewrite N.eqb_refl. destruct r; reflexivity.
  - rewrite (IH H). apply orb_true_r.
Qed.

Lemma pushSkills_commaFree (skills : Obj.t (list jsstring))
    (category : jsstring) (items : list jsstring) :
  commaFree skills -> (forall x, x ∈ items -> 44 ∉ x) ->
  commaFree (pushSkills skills category items).
Proof.
  intros Hsk Hitems. unfold pushSkills.
  assert (commaFree
            match Obj.get skills category with
            | Some _ => skills
            | None => Obj.set skills category []
            end) as H1.
  { destruct (Obj.get skills category); [done|].
    intros k l x Hkl Hx. apply set_elem_of in Hkl as [Hkl|[-> ->]].
    - by apply (Hsk k l).
    - by apply elem_of_nil in Hx. }
  set (skills1 := match Obj.get skills category with
                  | Some _ => skills
                  | None => Obj.set skills category []
                  end) in *.
  intros k l x Hkl Hx. apply set_elem_of in Hkl as [Hkl|[-> ->]].
  - by apply (H1 k l).
  - apply elem_of_app in Hx as [Hx|Hx]; [|by apply Hitems].
    destruct (Obj.get skills1 category) as [l0|] eqn:E; simpl in Hx.
    + apply get_elem_of in E. by apply (H1 category l0).
    + by apply elem_of_nil in Hx.
Qed.

Lemma pushSkills_keys (skills : Obj.t (list jsstring))
    (category : jsstring) (items : list jsstring) (k : jsstring) :
  k ∈ List.map fst (pushSkills skills category items)
  <-> k ∈ List.map fst skills \/ k = category.
Proof.
  unfold pushSkills. rewrite set_keys_elem_of.
  destruct (Obj.get skills category); [done|].
  rewrite set_keys_elem_of. tauto.
Qed.

Lemma pushSkills_NoDup (skills : Obj.t (list jsstring))
    (category : jsstring) (items : list jsstring) :
  NoDup (List.map fst skills) ->
  NoDup (List.map fst (pushSkills skills category items)).
Proof.
  intros H. unfold pushSkills. apply set_keys_NoDup.
  destruct (Obj.get skills category); [done | by apply set_keys_NoDup].
Qed.

#[local] Ltac split_step :=
  repeat match goal with
         | |- context [if ?b then _ else _] => destruct b eqn:?
         end.

Lemma step_invariant (st : state) (line : jsstring) :
  NoDup (List.map fst (fst st)) /\ commaFree (fst st) ->
  NoDup (List.map fst (fst (step st line))) /\ commaFree (fst (step st line)).
Proof.
  destruct st as [skills cat]. unfold step. cbn [fst]. intros [Hnd Hcf].
  destruct (isCategoryHeader (Js.trim line)); cbn [fst].
  { split; [by apply set_keys_NoDup|].
    intros k l x Hkl Hx. apply set_elem_of in Hkl as [Hkl|[-> ->]].
    - by apply (Hcf k l).
    - by apply elem_of_nil in Hx. }
  destruct (Js.includes (Js.trim line) (js ",") || _ || _) eqn:D; cbn [fst].
  { split; [by apply pushSkills_NoDup|]. apply pushSkills_commaFree; [done|].
    intros x Hx. apply list_elem_of_In, filter_In in Hx as [Hx _].
    apply in_map_iff in Hx as (y & <- & Hy). intros H. apply trim_elem_of in H.
    revert H. apply (split_no_separator 44 (stripBullet (Js.trim line))).
    by apply list_elem_of_In. }
  destruct (_ && _) eqn:E; cbn [fst]; [|done].
  split; [by apply pushSkills_NoDup|]. apply pushSkills_commaFree; [done|].
  intros x Hx. apply list_elem_of_singleton in Hx as ->.
  apply orb_false_elim in D as [D _]. apply orb_false_elim in D as [D _].
  intros H. apply includes_singleton in H. change [44] with (js ",") in H.
  congruence.
Qed.

(** X13. In the result no category occurs twice, and no list of skills has
    a duplicate, an empty string, a string with white space around it or a
    string with a comma. *)
Theorem parseSkills_clean (text : jsstring) :
  NoDup (List.map fst (parseSkills text))
  /\ forall category list,
       (category, list) ∈ parseSkills text ->
       NoDup list
       /\ forall x, x ∈ list -> x <> [] /\ Js.trim x = x /\ 44 ∉ x.
Proof.
  unfold parseSkills. destruct (Js.isEmpty text).
  { split; [apply NoDup_nil_2 | intros ? ? H; by apply elem_of_nil in H]. }
  assert (forall lines st,
            NoDup (List.map fst (fst st)) /\ commaFree (fst st) ->
            NoDup (List.map fst (fst (foldl step st lines)))
            /\ commaFree (fst (foldl step st lines))) as Hfold.
  { induction lines as [|l rest IH]; intros st H; simpl; [done|].
    apply IH, step_invariant, H. }
  destruct (Hfold (nonBlankLines text) ([], js "Other")) as [Hnd Hcf].
  { split; [apply NoDup_nil_2 | intros ? ? ? H; by apply elem_of_nil in H]. }
  destruct (foldl step ([], js "Other") (nonBlankLines text)) as [skills cat].
  cbn [fst] in *. split.
  - rewrite List.map_map.
    rewrite (map_ext _ fst); [done|]. by intros [? ?].
  - intros category list H.
    apply list_elem_of_fmap in H as ([k l] & [= -> ->] & Hkl).
    pose proof (cleanArray_NoDup l) as Hnd'.
    pose proof (cleanArray_elem_of l) as Hin.
    split; [exact Hnd'|]. intros x Hx. apply Hin in Hx as (Hne & y & Hy & <-).
    split; [exact Hne|]. split; [apply trim_trim|].
    intros H. apply trim_elem_of in H. by apply (Hcf k l y).
Qed.

Lemma step_categories (all : list jsstring) (st : state) (line : jsstring) :
  line ∈ all ->
  (forall k, k ∈ List.map fst (fst st) -> categoryOf all k) /\ categoryOf all (snd st) ->
  (forall k, k ∈ List.map fst (fst (step st line)) -> categoryOf all k)
  /\ categoryOf all (snd (step st line)).
Proof.
  destruct st as [skills cat]. unfold step. cbn [fst snd]. intros Hline [Hk Hc].
  destruct (isCategoryHeader (Js.trim line)) eqn:Hh; cbn [fst snd].
  { assert (categoryOf all (removeFirstColon (Js.trim line))) as Hnew.
    { right. by exists line. }
    split; [|done]. intros k H. apply set_keys_elem_of in H as [H| ->]; auto. }
  split_step; cbn [fst snd]; (split; [|done]); try done;
    intros k H; apply pushSkills_keys in H as [H| ->]; auto.
Qed.

(** X14. Every category of the result is [Other] or the text of a header
    line without its first colon. *)
Theorem parseSkills_categories (text : jsstring) (k : jsstring) :
  k ∈ List.map fst (parseSkills text) ->
  k = js "Other"
  \/ exists line,
       line ∈ nonBlankLines text /\ isCategoryHeader (Js.trim line) = true
       /\ k = removeFirstColon (Js.trim line).
Proof.
  unfold parseSkills. destruct (Js.isEmpty text).
  { intros H. by apply elem_of_nil in H. }
  assert (forall lines st,
            (forall l, l ∈ lines -> l ∈ nonBlankLines text) ->
            (forall k, k ∈ List.map fst (fst st) -> categoryOf (nonBlankLines text) k)
            /\ categoryOf (nonBlankLines text) (snd st) ->
            (forall k, k ∈ List.map fst (fst (foldl step st lines)) ->
                       categoryOf (nonBlankLines text) k)
            /\ categoryOf (nonBlankLines text) (snd (foldl step st lines))) as Hfold.
  { induction lines as [|l rest IH]; intros st Hsub H; simpl; [done|].
    apply IH.
    - intros l' Hl'. by apply Hsub, list_elem_of_further.
    - apply step_categories; [apply Hsub, list_elem_of_here | done]. }
  destruct (Hfold (nonBlankLines text) ([], js "Other")) as [Hkeys _]; [done| |].
  { split; [intros ? H; by apply elem_of_nil in H | by left]. }
  destruct (foldl step ([], js "Other") (nonBlankLines text)) as [skills cat].
  cbn [fst] in Hkeys. intros H. apply Hkeys.
  rewrite List.map_map in H. rewrite (map_ext _ fst) in H; [done|]. by intros [? ?].
Qed.

End SkillsFacts.

(** X14 on the skills section of the specification. *)
Lemma parseSkills_categories_witness :
  js "Tools" = js "Other"
  \/ exists line,
       line ∈ nonBlankLines (js "Languages:\nPython, Go, Rust\nTools:\nGit\n")
       /\ Skills.isCategoryHeader (Js.trim line) = true
       /\ js "Tools" = Skills.removeFirstColon (Js.trim line).
Proof.
  apply (parseSkills_categories (js "Languages:\nPython, Go, Rust\nTools:\nGit\n")
           (js "Tools")).
  vm_compute. apply list_elem_of_further, list_elem_of_here.
Defined.

(** ** What the digest includes *)

Section DigestContents.

Import Digest.

Local Open Scope Z_scope.

Lemma accumulate_all_fit (entries : list (jsstring * jsstring))
    (totalLength maxTotalLength : Z) :
  totalLength + contentLength entries <= maxTotalLength ->
  accumulate entries totalLength maxTotalLength = entries.
Proof.
  revert totalLength.
  induction entries as [|[name content] rest IH]; intros totalLength H; simpl;
    [reflexivity|].
  simpl in H. pose proof (len_nonneg content).
  assert (0 <= contentLength rest) as Hrest.
  { clear. induction rest as [|e r IHr]; simpl; [lia|].
    pose proof (len_nonneg (snd e)). lia. }
  destruct (Z.gtb_spec (totalLength + len content) maxTotalLength); [lia|].
  rewrite IH by lia. reflexivity.
Qed.

Lemma insertByLength_Permutation (e : jsstring * jsstring)
    (sorted : list (jsstring * jsstring)) :
  insertByLength e sorted ≡ₚ e :: sorted.
Proof.
  induction sorted as [|x r IH]; simpl; [done|].
  destruct (len (snd e) <? len (snd x)); [|done].
  rewrite IH. apply Permutation_swap.
Qed.

Lemma sortByLength_Permutation (entries : list (jsstring * jsstring)) :
  sortByLength entries ≡ₚ entries.
Proof.
  unfold sortByLength. induction entries as [|e r IH]; simpl; [done|].
  rewrite insertByLength_Permutation. by rewrite IH.
Qed.

Lemma insertByLength_sorted (e : jsstring * jsstring)
    (sorted : list (jsstring * jsstring)) :
  StronglySorted (fun a b => len (snd b) <= len (snd a)) sorted ->
  StronglySorted (fun a b => len (snd b) <= len (snd a)) (insertByLength e sorted).
Proof.
  induction sorted as [|x r IH]; intros H; simpl.
  - repeat constructor.
  - apply StronglySorted_inv in H as [Hr Hx].
    destruct (Z.ltb_spec (len (snd e)) (len (snd x))) as [Hlt|Hge].
    + constructor; [by apply IH|].
      rewrite insertByLength_Permutation. constructor; [lia | done].
    + constructor; [by constructor|]. constructor; [done|].
      eapply Forall_impl; [exact Hx|]. simpl. intros y Hy. lia.
Qed.

Lemma contentLength_Permutation (l1 l2 : list (jsstring * jsstring)) :
  l1 ≡ₚ l2 -> contentLength l1 = contentLength l2.
Proof.
  unfold contentLength. induction 1; simpl; lia.
Qed.

Lemma insertByLength_stable (n : Z) (e : jsstring * jsstring)
    (sorted : list (jsstring * jsstring)) :
  List.filter (fun x => len (snd x) =? n) (insertByLength e sorted)
  = List.filter (fun x => len (snd x) =? n) (e :: sorted).
Proof.
  induction sorted as [|x r IH]; [reflexivity|]. cbn [insertByLength].
  destruct (Z.ltb_spec (len (snd e)) (len (snd x))) as [Hlt|Hge]; [|reflexivity].
  cbn [List.filter] in *. rewrite IH.
  destruct (Z.eqb_spec (len (snd x)) n), (Z.eqb_spec (len (snd e)) n);
    try reflexivity.
  lia.
Qed.

(** X15. The sort orders the entries by content length, longest first; it
    neither loses nor adds an entry, and entries of the same length keep
    their order (the sort is stable). *)
Theorem sortByLength_sorted (entries : list (jsstring * jsstring)) :
  sortByLength entries ≡ₚ entries
  /\ StronglySorted (fun a b => len (snd b) <= len (snd a)) (sortByLength entries)
  /\ forall n,
       List.filter (fun x => len (snd x) =? n) (sortByLength entries)
       = List.filter (fun x => len (snd x) =? n) entries.
Proof.
  split; [apply sortByLength_Permutation|]. split.
  - unfold sortByLength. induction entries as [|e r IH]; simpl; [constructor|].
    by apply insertByLength_sorted.
  - intros n. unfold sortByLength.
    induction entries as [|e r IH]; [reflexivity|].
    cbn [foldr]. rewrite insertByLength_stable. cbn [List.filter].
    by rewrite IH.
Qed.

(** X16. When the distinct non-empty sections fit in the budget together,
    the digest includes each of them whole. *)
Theorem digest_includes_all_that_fit (sections : Obj.t jsstring) (B : Z) :
  contentLength (uniqueNonEmpty sections) <= B ->
  includedSections sections B = sortByLength (uniqueNonEmpty sections).
Proof.
  intros H. unfold includedSections. apply accumulate_all_fit.
  rewrite (contentLength_Permutation _ _ (sortByLength_Permutation _)). lia.
Qed.

Lemma keepEntry_subset (sections : list (jsstring * jsstring))
    (st : JsSet.t * list (jsstring * jsstring)) (e : jsstring * jsstring) :
  e ∈ snd (foldl keepEntry st sections) ->
  e ∈ snd st \/ (e ∈ sections /\ Js.trim (snd e) <> []).
Proof.
  revert st. induction sections as [|[k v] rest IH]; intros [seen kept]; simpl.
  - auto.
  - intros H. apply IH in H as [H|[H Hne]].
    + destruct (negb (Js.isEmpty v) && (0 <? len (Js.trim v)) && _) eqn:C;
        cbn [snd] in H; [|by left].
      apply elem_of_app in H as [H|H]; [by left|].
      apply list_elem_of_singleton in H as ->. right. split; [apply list_elem_of_here|].
      apply andb_prop in C as [C _]. apply andb_prop in C as [_ C].
      cbn [snd]. intros E. rewrite E in C. discriminate C.
    + right. split; [by apply list_elem_of_further | done].
Qed.

Lemma keepEntry_seen (sections : list (jsstring * jsstring))
    (st : JsSet.t * list (jsstring * jsstring)) :
  (forall x, x ∈ fst st <-> x ∈ List.map (fun e => Js.trim (snd e)) (snd st)) ->
  NoDup (List.map (fun e => Js.trim (snd e)) (snd st)) ->
  (forall x, x ∈ fst (foldl keepEntry st sections)
             <-> x ∈ List.map (fun e => Js.trim (snd e))
                       (snd (foldl keepEntry st sections)))
  /\ NoDup (List.map (fun e => Js.trim (snd e)) (snd (foldl keepEntry st sections)))
  /\ (forall x, x ∈ fst st -> x ∈ fst (foldl keepEntry st sections))
  /\ (forall e, e ∈ sections -> Js.trim (snd e) <> [] ->
                Js.trim (snd e) ∈ fst (foldl keepEntry st sections)).
Proof.
  revert st. induction sections as [|[k v] rest IH]; intros [seen kept] Hseen Hnd.
  - simpl. repeat split; try done; try apply Hseen.
    intros e He. by apply elem_of_nil in He.
  - cbn [foldl]. cbn [fst snd] in Hseen, Hnd.
    set (st' := keepEntry (seen, kept) (k, v)).
    assert ((forall x, x ∈ fst st' <-> x ∈ List.map (fun e => Js.trim (snd e)) (snd st'))
            /\ NoDup (List.map (fun e => Js.trim (snd e)) (snd st'))
            /\ (forall x, x ∈ seen -> x ∈ fst st')
            /\ (Js.trim v <> [] -> Js.trim v ∈ fst st')) as (H1 & H2 & H3 & H4).
    { subst st'. unfold keepEntry.
      destruct (JsSet.has seen (Js.trim v)) eqn:Has.
      - rewrite andb_false_r. cbn [fst snd]. repeat split; try done; try apply Hseen.
        intros _. by apply has_true.
      - rewrite andb_true_r.
        destruct (negb (Js.isEmpty v) && (0 <? len (Js.trim v))%Z) eqn:C; cbn [fst snd].
        + repeat split.
          * intros Hx. apply add_elem_of in Hx.
            rewrite map_app, elem_of_app. cbn [List.map snd].
            rewrite list_elem_of_singleton.
            destruct Hx as [Hx|Hx]; [left; by apply Hseen | by right].
          * rewrite map_app, elem_of_app. cbn [List.map snd].
            rewrite list_elem_of_singleton.
            intros [Hx|Hx]; apply add_elem_of; [left; by apply Hseen | by right].
          * rewrite map_app. cbn [List.map snd]. apply NoDup_app. split; [done|]. split.
            -- intros x Hx Hx'. apply list_elem_of_singleton in Hx'. subst x.
               apply Hseen, has_true in Hx. cbn [snd] in Hx. congruence.
            -- apply NoDup_singleton.
          * intros x Hx. apply add_elem_of. by left.
          * intros _. apply add_elem_of. by right.
        + repeat split; try done; try apply Hseen.
          intros Hne. exfalso.
          apply andb_false_iff in C as [C|C].
          * destruct v; [done | discriminate C].
          * apply Z.ltb_ge in C. unfold len in C. destruct (Js.trim v); [done|].
            simpl in C. lia. }
    destruct (IH st' H1 H2) as (I1 & I2 & I3 & I4).
    repeat split; try done; try apply I1.
    + intros x Hx. by apply I3, H3.
    + intros e He Hne. apply elem_of_cons in He as [->|He].
      * apply I3, H4. exact Hne.
      * by apply I4.
Qed.

(** X30. Of the sections that are not blank the digest considers one for
    each trimmed content: no trimmed content is considered twice and none
    is left out. *)
Theorem uniqueNonEmpty_contents (sections : Obj.t jsstring) :
  NoDup (List.map (fun e => Js.trim (snd e)) (uniqueNonEmpty sections))
  /\ forall k v,
       (k, v) ∈ sections -> Js.trim v <> [] ->
       Js.trim v ∈ List.map (fun e => Js.trim (snd e)) (uniqueNonEmpty sections).
Proof.
  unfold uniqueNonEmpty.
  destruct (keepEntry_seen sections ([], [])) as (H1 & H2 & _ & H4).
  { intros x. simpl. done. }
  { simpl. apply NoDup_nil_2. }
  split; [exact H2|]. intros k v Hkv Hne.
  apply H1. by apply (H4 (k, v)).
Qed.

Lemma accumulate_prefix (entries : list (jsstring * jsstring))
    (totalLength maxTotalLength : Z) (name content : jsstring) :
  (name, content) ∈ accumulate entries totalLength maxTotalLength ->
  exists full, (name, full) ∈ entries /\ content `prefix_of` full.
Proof.
  revert totalLength.
  induction entries as [|[n c] rest IH]; intros totalLength; simpl.
  - intros H. by apply elem_of_nil in H.
  - destruct (_ >? _).
    + destruct (_ >? 200); [|intros H; by apply elem_of_nil in H].
      intros H. apply list_elem_of_singleton in H as [= -> ->].
      exists c. split; [apply list_elem_of_here | apply prefix_take].
    + rewrite elem_of_cons. intros [[= -> ->]|H].
      * exists c. split; [apply list_elem_of_here | done].
      * apply IH in H as (full & Hin & Hpre). exists full.
        split; [by apply list_elem_of_further | done].
Qed.

Lemma accumulate_whole (entries : list (jsstring * jsstring))
    (totalLength maxTotalLength : Z) (i : nat) (e : jsstring * jsstring) :
  accumulate entries totalLength maxTotalLength !! i = Some e ->
  (S i < length (accumulate entries totalLength maxTotalLength))%nat ->
  e ∈ entries.
Proof.
  revert totalLength i.
  induction entries as [|[n c] rest IH]; intros totalLength i; simpl; [done|].
  destruct (_ >? _).
  - destruct (_ >? 200); simpl; [|done]. intros _ H. lia.
  - destruct i as [|i]; simpl.
    + intros [= <-] _. apply list_elem_of_here.
    + intros H Hlen. apply list_elem_of_further. apply (IH _ i H). lia.
Qed.

(** X17. Every block of the digest carries the name of a section and a
    prefix of that section's content, which is not blank; every block but
    the last carries the content whole. *)
Theorem digest_blocks_from_sections (sections : Obj.t jsstring) (B : Z) :
  (forall name content,
     (name, content) ∈ includedSections sections B ->
     exists full,
       (name, full) ∈ sections /\ content `prefix_of` full /\ Js.trim full <> [])
  /\ (forall i e,
        includedSections sections B !! i = Some e ->
        (S i < length (includedSections sections B))%nat ->
        e ∈ sections).
Proof.
  assert (forall e, e ∈ sortByLength (uniqueNonEmpty sections) ->
                    e ∈ sections /\ Js.trim (snd e) <> []) as Hsub.
  { intros e He. rewrite sortByLength_Permutation in He.
    apply keepEntry_subset in He as [He|He]; [by apply elem_of_nil in He | done]. }
  unfold includedSections. split.
  - intros name content H. apply accumulate_prefix in H as (full & Hin & Hpre).
    exists full. apply Hsub in Hin as [Hin Hne]. done.
  - intros i e Hi Hlen. by apply (Hsub e), (accumulate_whole _ 0 B i).
Qed.

End DigestContents.

(** X16 on two small sections and the handler's budget. *)
Lemma digest_includes_all_that_fit_witness :
  Digest.includedSections
    [(js "skills", js "Python, Go"); (js "education", js "BSc Physics, Stanford")]
    8000
  = Digest.sortByLength
      (Digest.uniqueNonEmpty
         [(js "skills", js "Python, Go"); (js "education", js "BSc Physics, Stanford")]).
Proof.
  apply (digest_includes_all_that_fit
           [(js "skills", js "Python, Go"); (js "education", js "BSc Physics, Stanford")]
           8000).
  vm_compute. discriminate.
Defined.

(** ** More on the result assembly *)

Section AssemblerMore.

Import Assembler.

(** X18. The assembly raises exactly when the external output is a string
    that is not empty. *)
Theorem assemble_raises_iff (academicJson : value) (p : parsed) :
  assemble academicJson p = None
  <-> exists s, academicJson = JStr s /\ s <> [].
Proof.
  split.
  - intros H. destruct academicJson as [| |b|n|s|items|props].
    1-4,6-7: exfalso; revert H; unfold assemble, patch;
      try (destruct b); try (destruct n); try (destruct items);
      try (destruct props); discriminate.
    exists s. split; [done|]. intros ->. discriminate H.
  - intros (s & -> & Hs). destruct s; [done | reflexivity].
Qed.

(** X19. From an external object, a value that is not null, [[]] or [{}]
    is kept under its key (under [positions]: if its [length] is not 0),
    and so is every property outside the seven required keys. *)
Theorem assemble_keeps_values (props : Obj.t value) (p : parsed) :
  props <> [] ->
  exists r,
    assemble (JObj props) p = Some r
    /\ (forall key, key ∉ requiredKeys -> Obj.get (own r) key = Obj.get props key)
    /\ (forall key v,
          Obj.get props key = Some v -> needsFallback v = false ->
          (key = js "positions" -> lengthIsZero v = false) ->
          Obj.get (own r) key = Some v).
Proof.
  intros Hne. unfold assemble, patch.
  assert (falsy (JObj props) || noKeys (JObj props) = false) as ->.
  { destruct props; [done | reflexivity]. }
  eexists. split; [reflexivity|]. cbn [fmap option_fmap option_map].
  set (r := Record_ [] (patchRequired (parsedFallback p) props)).
  assert (forall key v,
            Obj.get props key = Some v -> needsFallback v = false ->
            Obj.get (own r) key = Some v) as Hkept.
  { intros key v Hv Hn. cbn [own r].
    destruct (decide (key ∈ requiredKeys)) as [Hin|Hout].
    - rewrite patchRequired_lookup by done. unfold prop. rewrite Hv. simpl.
      by rewrite Hn.
    - unfold patchRequired. by rewrite patchKeys_other. }
  split.
  - intros key Hout.
    rewrite positionsFallback_other.
    + unfold patchRequired. by apply patchKeys_other.
    + intros ->. apply Hout.
      apply list_elem_of_further, list_elem_of_further, list_elem_of_here.
  - intros key v Hv Hn Hpos.
    destruct (decide (key = js "positions")) as [->|Hk].
    + rewrite positionsFallback_positions.
      assert (positionsEmpty r = false) as ->.
      { unfold positionsEmpty, prop. rewrite (Hkept _ v Hv Hn). simpl.
        rewrite (needsFallback_nullish v Hn), (Hpos eq_refl). reflexivity. }
      simpl. by apply Hkept.
    + rewrite positionsFallback_other by done. by apply Hkept.
Qed.

Lemma patchKeys_fixed (fallback : Obj.t value) (keys : list jsstring)
    (o : Obj.t value) :
  (forall key, key ∈ keys ->
     exists v, Obj.get o key = Some v
               /\ (needsFallback v = true -> v = prop fallback key)) ->
  foldl (patchKey fallback) o keys = o.
Proof.
  induction keys as [|k rest IH]; intros H; simpl; [reflexivity|].
  assert (patchKey fallback o k = o) as ->.
  { destruct (H k) as (v & Hv & Hfb); [apply list_elem_of_here|].
    unfold patchKey. rewrite Hv. destruct (needsFallback v) eqn:N; [|done].
    rewrite <- (Hfb eq_refl). by apply set_same. }
  apply IH. intros key Hkey. apply H. by apply list_elem_of_further.
Qed.

(** X20. The assembly is idempotent: given the properties of an assembled
    record as external output, it returns them unchanged. *)
Theorem assemble_idempotent (academicJson : value) (p : parsed) (r : record) :
  assemble academicJson p = Some r ->
  assemble (JObj (own r)) p = Some (Record_ [] (own r)).
Proof.
  intros Hr.
  assert (forall s, academicJson = JStr s -> s = []) as Hstr.
  { intros s ->. destruct s; [done | discriminate Hr]. }
  (* the record before the last [if] *)
  destruct (patch_lookup academicJson p (js "positions") Hstr) as (r0 & Hr0 & Hpos0).
  { apply list_elem_of_further, list_elem_of_further, list_elem_of_here. }
  unfold assemble in Hr. rewrite Hr0 in Hr. injection Hr as <-.
  (* every required key is defined, by the fallback wherever it is empty *)
  assert (forall key, key ∈ requiredKeys ->
            exists v, Obj.get (own (positionsFallback p r0)) key = Some v
                      /\ (needsFallback v = true -> v = prop (parsedFallback p) key))
    as Hkeys.
  { intros key Hin.
    destruct (patch_lookup academicJson p key Hstr Hin) as (r1 & Hr1 & Hget).
    assert (r1 = r0) as -> by congruence.
    destruct (decide (key = js "positions")) as [->|Hne].
    - rewrite positionsFallback_positions.
      destruct (positionsEmpty r0 && _) eqn:F.
      + eexists. split; [reflexivity|]. apply andb_prop in F as [_ F].
        destruct (work_experience p); [discriminate F | discriminate].
      + rewrite Hget. eexists. split; [reflexivity|].
        destruct (needsFallback (external academicJson (js "positions"))) eqn:N;
          [done | congruence].
    - rewrite positionsFallback_other by done. rewrite Hget.
      eexists. split; [reflexivity|].
      destruct (needsFallback (external academicJson key)) eqn:N; [done | congruence]. }
  set (o := own (positionsFallback p r0)) in *.
  assert (o <> []) as Hne.
  { destruct (Hkeys (js "profile")) as (v & Hv & _); [apply list_elem_of_here|].
    intros E. rewrite E in Hv. discriminate Hv. }
  unfold assemble, patch.
  assert (falsy (JObj o) || noKeys (JObj o) = false) as ->.
  { destruct o; [done | reflexivity]. }
  cbn [fmap option_fmap option_map]. unfold patchRequired.
  rewrite (patchKeys_fixed _ _ _ Hkeys). f_equal.
  unfold positionsFallback at 1.
  assert (positionsEmpty (Record_ [] o) && (0 <? length (work_experience p))%nat = false)
    as ->; [|reflexivity].
  unfold positionsEmpty. cbn [own]. subst o.
  unfold prop. rewrite positionsFallback_positions.
  destruct (positionsEmpty r0 && (0 <? length (work_experience p))%nat) eqn:F.
  - apply andb_prop in F as [_ F]. simpl.
    destruct (work_experience p); [discriminate F | reflexivity].
  - exact F.
Qed.

End AssemblerMore.

(** X19 on an external output with a profile and an extra key. *)
Lemma assemble_keeps_values_witness :
  exists r,
    Assembler.assemble
      (Assembler.JObj
         [(js "profile", Assembler.JObj [(js "name", Assembler.JStr (js "Jane Doe"))]);
          (js "service", Assembler.JArr [Assembler.JStr (js "Reviewer")])])
      (Assembler.Parsed [] [] [] [] [] [] [])
    = Some r
    /\ (forall key, key ∉ Assembler.requiredKeys ->
          Obj.get (Assembler.own r) key
          = Obj.get
              [(js "profile",
                Assembler.JObj [(js "name", Assembler.JStr (js "Jane Doe"))]);
               (js "service", Assembler.JArr [Assembler.JStr (js "Reviewer")])] key)
    /\ (forall key v,
          Obj.get
            [(js "profile",
              Assembler.JObj [(js "name", Assembler.JStr (js "Jane Doe"))]);
             (js "service", Assembler.JArr [Assembler.JStr (js "Reviewer")])] key
          = Some v ->
          Assembler.needsFallback v = false ->
          (key = js "positions" -> Assembler.lengthIsZero v = false) ->
          Obj.get (Assembler.own r) key = Some v).
Proof.
  apply (assemble_keeps_values
           [(js "profile", Assembler.JObj [(js "name", Assembler.JStr (js "Jane Doe"))]);
            (js "service", Assembler.JArr [Assembler.JStr (js "Reviewer")])]).
  discriminate.
Defined.

(** X20 on an external output without keys. *)
Lemma assemble_idempotent_witness :
  Assembler.assemble
    (Assembler.JObj
       (Assembler.parsedFallback (Assembler.Parsed (js "Jane Doe") [] [] [] [] [] [])))
    (Assembler.Parsed (js "Jane Doe") [] [] [] [] [] [])
  = Some
      (Assembler.Record_ []
         (Assembler.parsedFallback (Assembler.Parsed (js "Jane Doe") [] [] [] [] [] []))).
Proof.
  apply (assemble_idempotent (Assembler.JObj [])
           (Assembler.Parsed (js "Jane Doe") [] [] [] [] [] [])
           (Assembler.Record_ []
              (Assembler.parsedFallback
                 (Assembler.Parsed (js "Jane Doe") [] [] [] [] [] [])))).
  reflexivity.
Defined.

(** ** The fenced block of the structuring reply *)

Section FenceFacts.

Import Fence.

Lemma length_trimStart (s : jsstring) : (length (Js.trimStart s) <= length s)%nat.
Proof.
  induction s as [|c r IH]; simpl; [lia|].
  destruct (Js.isWhiteSpace c); simpl; lia.
Qed.

Lemma length_trimEnd (s : jsstring) : (length (Js.trimEnd s) <= length s)%nat.
Proof.
  induction s as [|c r IH]; [simpl; lia|]. rewrite trimEnd_cons.
  destruct (Js.isEmpty (Js.trimEnd r)); [destruct (Js.isWhiteSpace c)|]; simpl; lia.
Qed.

Lemma trim_fixed_inv (s : jsstring) :
  Js.trim s = s -> Js.startsClean s = true /\ Js.trimEnd s = s.
Proof.
  intros H.
  assert (Js.startsClean s = true) as Hs.
  { destruct s as [|c r]; [reflexivity|]. simpl.
    destruct (Js.isWhiteSpace c) eqn:W; [|reflexivity].
    exfalso. unfold Js.trim in H. simpl in H. rewrite W in H.
    pose proof (length_trimEnd (Js.trimStart r)).
    pose proof (length_trimStart r).
    apply (f_equal length) in H. simpl in H. lia. }
  split; [exact Hs|]. unfold Js.trim in H. by rewrite (trimStart_fixed s Hs) in H.
Qed.

Lemma opens_backquote (c : N) (r : jsstring) : opens (c :: r) = true -> c = 96.
Proof.
  unfold opens.
  change (List.map Education.canonical (js "```json")) with [96; 96; 96; 74; 83; 79; 78].
  change (take 7 (c :: r)) with (c :: take 6 r). cbn [List.map].
  rewrite startsWith_cons.
  intros H. apply andb_prop in H as [H _]. apply N.eqb_eq in H.
  unfold Education.canonical in H.
  destruct (Js.isLower c) eqn:L; [|done].
  unfold Js.isLower in L. apply andb_prop in L as [L1 L2].
  apply N.leb_le in L1, L2. lia.
Qed.

(** X21. A reply without a backquote has no fenced block: the function
    throws. *)
Theorem fencedJson_needs_backquote (content : jsstring) :
  96 ∉ content -> fencedJson content = None.
Proof.
  induction content as [|c r IH]; intros H; [reflexivity|].
  apply not_elem_of_cons in H as [Hc Hr]. cbn [fencedJson].
  destruct (opens (c :: r)) eqn:O; [|by apply IH].
  apply opens_backquote in O. congruence.
Qed.

Lemma fencedJson_skip (before rest : jsstring) :
  96 ∉ before -> rest <> [] ->
  fencedJson (before ++ rest) = fencedJson rest.
Proof.
  intros Hb Hrest. induction before as [|c r IH]; [reflexivity|].
  apply not_elem_of_cons in Hb as [Hc Hr].
  change ((c :: r) ++ rest) with (c :: (r ++ rest)). cbn [fencedJson].
  destruct (opens (c :: r ++ rest)) eqn:O; [|by apply IH].
  apply opens_backquote in O. congruence.
Qed.

Lemma closes_inside (s tail : jsstring) :
  96 ∉ s -> Js.trimEnd s = s -> s <> [] -> closes (s ++ tail) = false.
Proof.
  induction s as [|c r IH]; intros Hq He Hne; [done|].
  apply not_elem_of_cons in Hq as [Hc Hr].
  unfold closes. change ((c :: r) ++ tail) with (c :: (r ++ tail)).
  cbn [Js.trimStart]. destruct (Js.isWhiteSpace c) eqn:W.
  - rewrite trimEnd_cons in He.
    destruct (Js.trimEnd r) as [|d r'] eqn:E; simpl in He.
    + rewrite W in He. discriminate He.
    + injection He as He. apply IH; [done | congruence | by intros ->].
  - change (js "```") with [96; 96; 96]. rewrite startsWith_cons.
    destruct (N.eqb_spec 96 c); [congruence | reflexivity].
Qed.

Lemma startsWith_nil (s : jsstring) : Js.startsWith s [] = true.
Proof. destruct s; reflexivity. Qed.

Lemma closes_fence (after : jsstring) :
  closes (10 :: 96 :: 96 :: 96 :: after) = true.
Proof.
  unfold closes.
  change (Js.trimStart (10 :: 96 :: 96 :: 96 :: after)) with (96 :: 96 :: 96 :: after).
  change (js "```") with [96; 96; 96].
  rewrite !startsWith_cons, !N.eqb_refl, startsWith_nil. reflexivity.
Qed.

Lemma lazyBody_body (body after : jsstring) :
  96 ∉ body -> Js.trimEnd body = body ->
  lazyBody (body ++ js "\n```" ++ after) = Some body.
Proof.
  induction body as [|c r IH]; intros Hq He.
  - change ([] ++ js "\n```" ++ after) with (10 :: 96 :: 96 :: 96 :: after).
    cbn [lazyBody]. by rewrite closes_fence.
  - assert (closes ((c :: r) ++ js "\n```" ++ after) = false) as Hc
      by (by apply closes_inside).
    change ((c :: r) ++ js "\n```" ++ after)
      with (c :: (r ++ js "\n```" ++ after)) in *.
    cbn [lazyBody]. rewrite Hc. rewrite IH; [reflexivity| |].
    + by apply not_elem_of_cons in Hq as [_ Hq].
    + rewrite trimEnd_cons in He.
      destruct (Js.trimEnd r) as [|d r'] eqn:E; simpl in He.
      * destruct (Js.isWhiteSpace c); [discriminate He|]. by injection He as <-.
      * by injection He.
Qed.

(** X22. Around a body without a backquote and without white space at its
    ends, the fence is undone: from any reply that has no backquote before
    the opening [```json], the body is what is given to [JSON.parse]. *)
Theorem fencedJson_round_trip (before body after : jsstring) :
  96 ∉ before -> 96 ∉ body -> Js.trim body = body ->
  fencedJson (before ++ js "```json\n" ++ body ++ js "\n```" ++ after) = Some body.
Proof.
  intros Hb Hq Ht. apply trim_fixed_inv in Ht as [Hs He].
  rewrite fencedJson_skip by done.
  change (js "```json\n" ++ body ++ js "\n```" ++ after)
    with (96 :: 96 :: 96 :: 106 :: 115 :: 111 :: 110 :: 10
            :: (body ++ js "\n```" ++ after)).
  cbn [fencedJson].
  assert (opens (96 :: 96 :: 96 :: 106 :: 115 :: 111 :: 110 :: 10
                   :: (body ++ js "\n```" ++ after)) = true) as -> by reflexivity.
  cbn [drop].
  assert (Js.trimStart (10 :: (body ++ js "\n```" ++ after))
          = Js.trimStart (body ++ js "\n```" ++ after)) as -> by reflexivity.
  destruct body as [|c r].
  { change (Js.trimStart ([] ++ js "\n```" ++ after)) with (96 :: 96 :: 96 :: after).
    cbn [lazyBody]. unfold closes.
    change (Js.trimStart (96 :: 96 :: 96 :: after)) with (96 :: 96 :: 96 :: after).
    change (js "```") with [96; 96; 96].
    rewrite !startsWith_cons, !N.eqb_refl, startsWith_nil. reflexivity. }
  assert (Js.trimStart ((c :: r) ++ js "\n```" ++ after)
          = (c :: r) ++ js "\n```" ++ after) as ->.
  { apply trimStart_fixed. exact Hs. }
  by rewrite lazyBody_body.
Qed.

End FenceFacts.

(** X21 on a reply in plain words. *)
Lemma fencedJson_needs_backquote_witness :
  Fence.fencedJson (js "I could not parse this resume.") = None.
Proof.
  apply (fencedJson_needs_backquote (js "I could not parse this resume.")).
  vm_compute. intros H. apply list_elem_of_In in H. simpl in H.
  repeat (destruct H as [H|H]; [discriminate H|]). exact H.
Defined.

(** X22 on a reply with words before and after the block. *)
Lemma fencedJson_round_trip_witness :
  Fence.fencedJson
    (js "Here is the JSON:\n" ++ js "```json\n" ++ js "{ }" ++ js "\n```" ++ js "\nDone.")
  = Some (js "{ }").
Proof.
  apply (fencedJson_round_trip (js "Here is the JSON:\n") (js "{ }") (js "\nDone.")).
  - vm_compute. intros H. apply list_elem_of_In in H. simpl in H.
    repeat (destruct H as [H|H]; [discriminate H|]). exact H.
  - vm_compute. intros H. apply list_elem_of_In in H. simpl in H.
    repeat (destruct H as [H|H]; [discriminate H|]). exact H.
  - reflexivity.
Defined.

(** ** The matcher of [extractContactInfo] *)

Section RegexFacts.

Import Regex.

Lemma lastOr_app (prev : option N) (w1 w2 : jsstring) :
  lastOr (lastOr prev w1) w2 = lastOr prev (w1 ++ w2).
Proof.
  unfold lastOr. destruct w2 as [|x w2 _] using rev_ind.
  - rewrite app_nil_r. reflexivity.
  - rewrite app_assoc, !last_snoc. reflexivity.
Qed.

(** The outcome of [iterate] in terms of [Repeats]. *)
Lemma iterate_stop (body : regex) (min : nat) (max : option nat)
    (n : nat) (c : cursor) (k : cursor -> option cursor) (result : cursor) :
  (forall M, max = Some M -> (n <= M)%nat) ->
  (min <= n)%nat -> k c = Some result ->
  exists j w after,
    rest c = w ++ after
    /\ Repeats body j (before c) w after
    /\ (min <= n + j)%nat
    /\ (forall M, max = Some M -> (n + j <= M)%nat)
    /\ k (Cursor (lastOr (before c) w) after) = Some result.
Proof.
  destruct c as [prev s]. intros Hn Hmin Hk. exists 0%nat, [], s. simpl.
  split; [done|]. split; [constructor|]. split; [lia|].
  split; [|exact Hk]. intros M HM. specialize (Hn M HM). lia.
Qed.

Lemma iterate_more (body : regex) (min : nat) (max : option nat)
    (n : nat) (c : cursor) (k : cursor -> option cursor) (result : cursor)
    (w1 after1 : jsstring) :
  rest c = w1 ++ after1 ->
  Matches body (before c) w1 after1 ->
  (exists j w after,
     rest (Cursor (lastOr (before c) w1) after1) = w ++ after
     /\ Repeats body j (before (Cursor (lastOr (before c) w1) after1)) w after
     /\ (min <= S n + j)%nat
     /\ (forall M, max = Some M -> (S n + j <= M)%nat)
     /\ k (Cursor (lastOr (before (Cursor (lastOr (before c) w1) after1)) w) after)
        = Some result) ->
  exists j w after,
    rest c = w ++ after
    /\ Repeats body j (before c) w after
    /\ (min <= n + j)%nat
    /\ (forall M, max = Some M -> (n + j <= M)%nat)
    /\ k (Cursor (lastOr (before c) w) after) = Some result.
Proof.
  intros Hrest Hbody (j & w2 & after & Hrest2 & Hrep & Hmin & Hmax & Hk).
  cbn [rest before] in *. subst after1.
  exists (S j), (w1 ++ w2), after.
  split; [by rewrite <- app_assoc|]. split; [by econstructor|].
  split; [lia|]. split.
  - intros M HM. specialize (Hmax M HM). lia.
  - by rewrite <- lastOr_app.
Qed.

Lemma iterate_sound (body : regex)
    (m : cursor -> (cursor -> option cursor) -> option cursor)
    (min : nat) (max : option nat) :
  sound body m ->
  (forall M, max = Some M -> (min <= M)%nat) ->
  forall (fuel n : nat) (c : cursor) (k : cursor -> option cursor) (result : cursor),
    (forall M, max = Some M -> (n <= M)%nat) ->
    iterate m min max fuel n c k = Some result ->
    exists j w after,
      rest c = w ++ after
      /\ Repeats body j (before c) w after
      /\ (min <= n + j)%nat
      /\ (forall M, max = Some M -> (n + j <= M)%nat)
      /\ k (Cursor (lastOr (before c) w) after) = Some result.
Proof.
  intros Hm Hwf.
  induction fuel as [|fuel IH]; intros n c k result Hn; cbn [iterate].
  - destruct (min <=? n)%nat eqn:E; [|done]. apply Nat.leb_le in E.
    by apply iterate_stop.
  - destruct (n <? min)%nat eqn:Elt.
    + apply Nat.ltb_lt in Elt. intros H.
      apply Hm in H as (w1 & after1 & Hrest & Hbody & Hit).
      apply (iterate_more body min max n c k result w1 after1 Hrest Hbody).
      apply IH; [|exact Hit]. intros M HM. specialize (Hwf M HM). lia.
    + apply Nat.ltb_ge in Elt.
      destruct (below max n) eqn:B; [|by apply iterate_stop].
      destruct (m c _) as [r1|] eqn:Em; [|by apply iterate_stop].
      intros [= ->]. apply Hm in Em as (w1 & after1 & Hrest & Hbody & Hit).
      cbn [rest] in Hit. destruct (_ =? _)%nat; [done|].
      apply (iterate_more body min max n c k result w1 after1 Hrest Hbody).
      apply IH; [|exact Hit].
      intros M HM. subst max. simpl in B. apply Nat.ltb_lt in B. lia.
Qed.

Lemma run_sound (r : regex) : wellFormed r = true -> sound r (run r).
Proof.
  induction r as [p|a IHa b IHb|min max body IH| |]; intros Hwf c k result; simpl.
  - destruct c as [prev [|x xs]]; simpl; [done|].
    destruct (p x) eqn:P; [|done]. intros Hk. exists [x], xs.
    split; [done|]. split; [by constructor | exact Hk].
  - simpl in Hwf. apply andb_prop in Hwf as [Hwa Hwb]. intros H.
    apply (IHa Hwa) in H as (w1 & after1 & Hrest & Ha & H).
    apply (IHb Hwb) in H as (w2 & after & Hrest2 & Hb & Hk).
    cbn [rest before] in *. subst after1. exists (w1 ++ w2), after.
    split; [by rewrite <- app_assoc|]. split; [by constructor|].
    by rewrite <- lastOr_app.
  - simpl in Hwf. apply andb_prop in Hwf as [Hb Hwb]. intros H.
    apply (iterate_sound body (run body) min max (IH Hwb)) in H
      as (j & w & after & Hrest & Hrep & Hmin & Hmax & Hk).
    + exists w, after. split; [done|]. split; [|done].
      apply (M_Rep min max body j); [lia | | done].
      intros M HM. specialize (Hmax M HM). lia.
    + intros M ->. by apply Nat.leb_le.
    + intros M _. lia.
  - destruct (atLineStart c) eqn:E; [|done]. intros Hk.
    destruct c as [prev s]. exists [], s. split; [done|].
    split; [by constructor | exact Hk].
  - destruct (atWordBoundary c) eqn:E; [|done]. intros Hk.
    destruct c as [prev s]. exists [], s. split; [done|].
    split; [by constructor | exact Hk].
Qed.

(** The fuel of [iterate] is never used up: a matcher calls its
    continuation on the input that is left, and more fuel than [run] gives
    changes nothing. *)
Lemma iterate_ext
    (m : cursor -> (cursor -> option cursor) -> option cursor)
    (min : nat) (max : option nat) :
  (forall c k k',
     (forall c', (length (rest c') <= length (rest c))%nat -> k c' = k' c') ->
     m c k = m c k') ->
  forall (fuel n : nat) (c : cursor) (k k' : cursor -> option cursor),
    (forall c', (length (rest c') <= length (rest c))%nat -> k c' = k' c') ->
    iterate m min max fuel n c k = iterate m min max fuel n c k'.
Proof.
  intros Hloc. induction fuel as [|fuel IH]; intros n c k k' Hk; cbn [iterate].
  - by rewrite (Hk c).
  - assert (forall c', (length (rest c') <= length (rest c))%nat ->
              iterate m min max fuel (S n) c' k = iterate m min max fuel (S n) c' k')
      as Hnext.
    { intros c' Hc'. apply IH. intros c'' Hc''. apply Hk. lia. }
    destruct (n <? min)%nat; [by apply Hloc|].
    rewrite (Hk c) by done.
    destruct (below max n); [|done].
    rewrite (Hloc c _ (fun c' =>
               if (length (rest c') =? length (rest c))%nat then None
               else iterate m min max fuel (S n) c' k')); [done|].
    intros c' Hc'. destruct (_ =? _)%nat; [done | by apply Hnext].
Qed.

Lemma run_ext (r : regex) (c : cursor) (k k' : cursor -> option cursor) :
  (forall c', (length (rest c') <= length (rest c))%nat -> k c' = k' c') ->
  run r c k = run r c k'.
Proof.
  revert c k k'.
  induction r as [p|a IHa b IHb|min max body IH| |]; intros c k k' Hk; simpl.
  - destruct c as [prev [|x xs]]; simpl in *; [done|].
    destruct (p x); [|done]. apply Hk. simpl. lia.
  - apply IHa. intros c' Hc'. apply IHb. intros c'' Hc''. apply Hk. lia.
  - by apply iterate_ext.
  - destruct (atLineStart c); [by apply Hk | done].
  - destruct (atWordBoundary c); [by apply Hk | done].
Qed.

Lemma iterate_fuel
    (m : cursor -> (cursor -> option cursor) -> option cursor)
    (min : nat) (max : option nat) :
  (forall c k k',
     (forall c', (length (rest c') <= length (rest c))%nat -> k c' = k' c') ->
     m c k = m c k') ->
  forall (fuel1 fuel2 n : nat) (c : cursor) (k : cursor -> option cursor),
    (min - n + length (rest c) < fuel1)%nat ->
    (min - n + length (rest c) < fuel2)%nat ->
    iterate m min max fuel1 n c k = iterate m min max fuel2 n c k.
Proof.
  intros Hloc. induction fuel1 as [|fuel1 IH]; intros fuel2 n c k H1 H2; [lia|].
  destruct fuel2 as [|fuel2]; [lia|]. cbn [iterate].
  destruct (n <? min)%nat eqn:Elt.
  - apply Nat.ltb_lt in Elt. apply Hloc. intros c' Hc'. apply IH; lia.
  - apply Nat.ltb_ge in Elt. destruct (below max n); [|done].
    rewrite (Hloc c _ (fun c' =>
               if (length (rest c') =? length (rest c))%nat then None
               else iterate m min max fuel2 (S n) c' k)); [done|].
    intros c' Hc'. destruct (Nat.eqb_spec (length (rest c')) (length (rest c)));
      [done|]. apply IH; lia.
Qed.

Lemma run_Rep_fuel (min : nat) (max : option nat) (body : regex)
    (fuel : nat) (c : cursor) (k : cursor -> option cursor) :
  (min + length (rest c) < fuel)%nat ->
  iterate (run body) min max fuel 0 c k = run (Rep min max body) c k.
Proof.
  intros H. cbn [run]. apply iterate_fuel; [|lia|lia].
  intros c0 k0 k0'. apply run_ext.
Qed.

Lemma run_found (r : regex) (s : jsstring) (prev : option N) (c' : cursor) :
  wellFormed r = true ->
  run r (Cursor prev s) Some = Some c' ->
  exists post,
    s = take (length s - length (rest c')) s ++ post
    /\ Matches r prev (take (length s - length (rest c')) s) post.
Proof.
  intros Hwf E.
  apply (run_sound r Hwf) in E as (w & after & Hrest & Hm & [= <-]).
  cbn [rest before] in *. subst s. exists after.
  rewrite length_app.
  replace (length w + length after - length after)%nat with (length w) by lia.
  rewrite take_app_length. done.
Qed.

Lemma lastOr_cons (prev : option N) (x : N) (w : jsstring) :
  lastOr prev (x :: w) = lastOr (Some x) w.
Proof.
  unfold lastOr. destruct w as [|y w _] using rev_ind; [reflexivity|].
  by rewrite app_comm_cons, !last_snoc.
Qed.

(** A match that is found is a part of the text where the pattern matches. *)
Lemma search_sound (r : regex) (s : jsstring) (prev : option N) (found : jsstring) :
  wellFormed r = true ->
  search r prev s = Some found ->
  exists pre post,
    s = pre ++ found ++ post /\ Matches r (lastOr prev pre) found post.
Proof.
  intros Hwf. revert prev. induction s as [|x xs IH]; intros prev; cbn [search].
  - destruct (run r (Cursor prev []) Some) as [c'|] eqn:E; [|done].
    intros [= <-]. apply (run_found r _ _ _ Hwf) in E as (post & Hs & Hm).
    exists [], post. done.
  - destruct (run r (Cursor prev (x :: xs)) Some) as [c'|] eqn:E.
    + intros [= <-]. apply (run_found r _ _ _ Hwf) in E as (post & Hs & Hm).
      exists [], post. done.
    + intros H. apply IH in H as (pre & post & -> & Hm).
      exists (x :: pre), post. by rewrite lastOr_cons.
Qed.

Lemma Matches_Cat_inv (a b : regex) (prev : option N) (w after : jsstring) :
  Matches (Cat a b) prev w after ->
  exists w1 w2,
    w = w1 ++ w2 /\ Matches a prev w1 (w2 ++ after)
    /\ Matches b (lastOr prev w1) w2 after.
Proof. intros H. inversion H; subst. by eexists _, _. Qed.

Lemma Matches_Class_inv (p : N -> bool) (prev : option N) (w after : jsstring) :
  Matches (Class p) prev w after -> exists x, w = [x] /\ p x = true.
Proof. intros H. inversion H; subst. by eexists. Qed.

Lemma Matches_chr_inv (c : N) (prev : option N) (w after : jsstring) :
  Matches (chr c) prev w after -> w = [c].
Proof.
  intros H. apply Matches_Class_inv in H as (x & -> & Hx).
  apply N.eqb_eq in Hx. by subst.
Qed.

Lemma Repeats_Class (p : N -> bool) (n : nat) (prev : option N) (w after : jsstring) :
  Repeats (Class p) n prev w after -> length w = n /\ forallb p w = true.
Proof.
  revert prev w. induction n as [|n IH]; intros prev w H; inversion H; subst.
  - done.
  - match goal with
    | Hm : Matches (Class p) _ _ _ |- _ => inversion Hm; subst
    end.
    match goal with
    | Hr : Repeats (Class p) n _ _ _ |- _ => apply IH in Hr as [Hl Hf]
    end.
    simpl. split; [by rewrite Hl|]. by apply andb_true_intro.
Qed.

Lemma Matches_Class_Rep (p : N -> bool) (min : nat) (max : option nat)
    (prev : option N) (w after : jsstring) :
  Matches (Rep min max (Class p)) prev w after ->
  (min <= length w)%nat /\ (forall M, max = Some M -> (length w <= M)%nat)
  /\ forallb p w = true.
Proof.
  intros H. inversion H; subst.
  match goal with
  | Hr : Repeats (Class p) _ _ _ _ |- _ => apply Repeats_Class in Hr as [<- Hf]
  end.
  done.
Qed.

End RegexFacts.

(** ** [extractContactInfo] *)

Section ContactFacts.

Import Regex Contact.

Lemma matchOf_part (r : regex) (text : jsstring) :
  wellFormed r = true ->
  exists pre post, text = pre ++ default [] (matchOf r text) ++ post.
Proof.
  intros Hwf. unfold matchOf. destruct (search r None text) as [found|] eqn:E.
  - apply (search_sound r _ _ _ Hwf) in E as (pre & post & -> & _).
    by exists pre, post.
  - by exists [], text.
Qed.

(** X23. Each field of the contact information is a contiguous part of the
    text. *)
Theorem extractContactInfo_parts (text : jsstring) :
  (exists pre post, text = pre ++ name (extractContactInfo text) ++ post)
  /\ (exists pre post, text = pre ++ email (extractContactInfo text) ++ post)
  /\ (exists pre post, text = pre ++ phone (extractContactInfo text) ++ post)
  /\ (exists pre post, text = pre ++ location (extractContactInfo text) ++ post).
Proof. repeat split; by apply matchOf_part. Qed.

(** What a match of the email pattern consists of. *)
Lemma emailRegex_match (prev : option N) (found post : jsstring) :
  Matches emailRegex prev found post ->
  exists l d t,
    found = l ++ [64] ++ d ++ [46] ++ t
    /\ l <> [] /\ forallb isLocalPart l = true
    /\ d <> [] /\ forallb isDomain d = true
    /\ (2 <= length t)%nat /\ forallb isTopLevel t = true.
Proof.
  unfold emailRegex. intros Hm.
  apply Matches_Cat_inv in Hm as (w0 & r0 & -> & Hb & Hm). inversion Hb; subst.
  apply Matches_Cat_inv in Hm as (l & r1 & -> & Hl & Hm).
  apply Matches_Cat_inv in Hm as (at_ & r2 & -> & Hat & Hm).
  apply Matches_Cat_inv in Hm as (d & r3 & -> & Hd & Hm).
  apply Matches_Cat_inv in Hm as (dot & r4 & -> & Hdot & Hm).
  apply Matches_Cat_inv in Hm as (t & r5 & -> & Ht & Hb').
  inversion Hb'; subst.
  apply Matches_chr_inv in Hat as ->. apply Matches_chr_inv in Hdot as ->.
  apply Matches_Class_Rep in Hl as (Hl1 & _ & Hl2).
  apply Matches_Class_Rep in Hd as (Hd1 & _ & Hd2).
  apply Matches_Class_Rep in Ht as (Ht1 & _ & Ht2).
  exists l, d, t. rewrite app_nil_r. simpl.
  repeat split; try done.
  - intros ->. simpl in Hl1. lia.
  - intros ->. simpl in Hd1. lia.
Qed.

(** X24. The email field is empty, or a local part, [@], a domain, a dot
    and two or more letters, each over its class of the pattern. *)
Theorem extractContactInfo_email_shape (text : jsstring) :
  email (extractContactInfo text) = []
  \/ exists l d t,
       email (extractContactInfo text) = l ++ [64] ++ d ++ [46] ++ t
       /\ l <> [] /\ forallb isLocalPart l = true
       /\ d <> [] /\ forallb isDomain d = true
       /\ (2 <= length t)%nat /\ forallb isTopLevel t = true.
Proof.
  unfold extractContactInfo, matchOf. cbn [email].
  destruct (search emailRegex None text) as [found|] eqn:E; [|by left].
  right. apply search_sound in E as (pre & post & _ & Hm); [|reflexivity].
  cbn [from_option id]. by apply (emailRegex_match (lastOr None pre) found post).
Qed.

(** X25. A text without [@] gives the empty email. *)
Theorem extractContactInfo_email_needs_at (text : jsstring) :
  64 ∉ text -> email (extractContactInfo text) = [].
Proof.
  intros Hno. unfold extractContactInfo, matchOf. cbn [email].
  destruct (search emailRegex None text) as [found|] eqn:E; [|done].
  apply search_sound in E as (pre & post & Htext & Hm); [|reflexivity].
  apply emailRegex_match in Hm as (l & d & t & -> & _).
  exfalso. apply Hno. rewrite Htext.
  rewrite !elem_of_app. right. left. right. left. apply list_elem_of_here.
Qed.

(** X26. The name field is empty, or two words of a capital and one or more
    small letters each, with one space between them, found at the beginning
    of the text or right after a line terminator. *)
Theorem extractContactInfo_name_shape (text : jsstring) :
  name (extractContactInfo text) = []
  \/ exists u1 a u2 b pre post,
       name (extractContactInfo text) = u1 :: a ++ 32 :: u2 :: b
       /\ Js.isUpper u1 = true /\ a <> [] /\ forallb Js.isLower a = true
       /\ Js.isUpper u2 = true /\ b <> [] /\ forallb Js.isLower b = true
       /\ text = pre ++ name (extractContactInfo text) ++ post
       /\ match last pre with
          | Some c => isLineTerminator c = true
          | None => pre = []
          end.
Proof.
  unfold extractContactInfo, matchOf. cbn [name].
  destruct (search nameRegex None text) as [found|] eqn:E; [|by left].
  right. apply search_sound in E as (pre & post & Htext & Hm); [|reflexivity].
  unfold nameRegex in Hm.
  apply Matches_Cat_inv in Hm as (w0 & r0 & -> & Hs & Hm). inversion Hs; subst.
  apply Matches_Cat_inv in Hm as (w1 & r1 & -> & Hu1 & Hm).
  apply Matches_Cat_inv in Hm as (a & r2 & -> & Ha & Hm).
  apply Matches_Cat_inv in Hm as (sp & r3 & -> & Hsp & Hm).
  apply Matches_Cat_inv in Hm as (w2 & b & -> & Hu2 & Hb).
  apply Matches_Class_inv in Hu1 as (u1 & -> & Hu1).
  apply Matches_Class_inv in Hu2 as (u2 & -> & Hu2).
  apply Matches_chr_inv in Hsp as ->.
  apply Matches_Class_Rep in Ha as (Ha1 & _ & Ha2).
  apply Matches_Class_Rep in Hb as (Hb1 & _ & Hb2).
  exists u1, a, u2, b, pre, post. simpl.
  repeat split; try done.
  - intros ->. simpl in Ha1. lia.
  - intros ->. simpl in Hb1. lia.
  - match goal with
    | H : atLineStart _ = true |- _ => revert H
    end.
    unfold atLineStart, lastOr. cbn [before].
    destruct (last pre) eqn:L; [done|]. intros _.
    destruct pre as [|x pre _] using rev_ind; [done|]. by rewrite last_snoc in L.
Qed.

Lemma count_digits_app (a b : jsstring) :
  length (List.filter Js.isDigit (a ++ b))
  = (length (List.filter Js.isDigit a) + length (List.filter Js.isDigit b))%nat.
Proof. by rewrite List.filter_app, length_app. Qed.

Lemma count_digits_all (d : jsstring) :
  forallb Js.isDigit d = true -> length (List.filter Js.isDigit d) = length d.
Proof.
  intros H. rewrite forallb_filter_id; done.
Qed.

(** What a match of the phone pattern consists of. *)
Lemma phoneRegex_match (prev : option N) (found post : jsstring) :
  Matches phoneRegex prev found post ->
  exists a d1 b d2 c d3,
    found = a ++ d1 ++ b ++ d2 ++ c ++ d3
    /\ length d1 = 3%nat /\ forallb Js.isDigit d1 = true
    /\ length d2 = 3%nat /\ forallb Js.isDigit d2 = true
    /\ length d3 = 4%nat /\ forallb Js.isDigit d3 = true.
Proof.
  unfold phoneRegex. intros Hm.
  apply Matches_Cat_inv in Hm as (w0 & r0 & -> & _ & Hm).
  apply Matches_Cat_inv in Hm as (w1 & r1 & -> & _ & Hm).
  apply Matches_Cat_inv in Hm as (d1 & r2 & -> & Hd1 & Hm).
  apply Matches_Cat_inv in Hm as (w3 & r3 & -> & _ & Hm).
  apply Matches_Cat_inv in Hm as (w4 & r4 & -> & _ & Hm).
  apply Matches_Cat_inv in Hm as (d2 & r5 & -> & Hd2 & Hm).
  apply Matches_Cat_inv in Hm as (w6 & d3 & -> & _ & Hd3).
  apply Matches_Class_Rep in Hd1 as (Hd1a & Hd1b & Hd1c).
  apply Matches_Class_Rep in Hd2 as (Hd2a & Hd2b & Hd2c).
  apply Matches_Class_Rep in Hd3 as (Hd3a & Hd3b & Hd3c).
  specialize (Hd1b _ eq_refl). specialize (Hd2b _ eq_refl).
  specialize (Hd3b _ eq_refl).
  exists (w0 ++ w1), d1, (w3 ++ w4), d2, w6, d3.
  rewrite <- !app_assoc. repeat split; try done; lia.
Qed.

Lemma phoneRegex_match_digits (prev : option N) (found post : jsstring) :
  Matches phoneRegex prev found post ->
  (10 <= length (List.filter Js.isDigit found))%nat.
Proof.
  intros Hm.
  apply phoneRegex_match in Hm
    as (a & d1 & b & d2 & c & d3 & -> & L1 & D1 & L2 & D2 & L3 & D3).
  rewrite !count_digits_app.
  rewrite (count_digits_all d1 D1), (count_digits_all d2 D2),
    (count_digits_all d3 D3). lia.
Qed.

(** X27. The phone field is empty, or it has three digits, three digits and
    four digits in this order, so ten digits at least. *)
Theorem extractContactInfo_phone_shape (text : jsstring) :
  phone (extractContactInfo text) = []
  \/ (exists a d1 b d2 c d3,
        phone (extractContactInfo text) = a ++ d1 ++ b ++ d2 ++ c ++ d3
        /\ length d1 = 3%nat /\ forallb Js.isDigit d1 = true
        /\ length d2 = 3%nat /\ forallb Js.isDigit d2 = true
        /\ length d3 = 4%nat /\ forallb Js.isDigit d3 = true)
     /\ (10 <= length (List.filter Js.isDigit (phone (extractContactInfo text))))%nat.
Proof.
  unfold extractContactInfo, matchOf. cbn [phone].
  destruct (search phoneRegex None text) as [found|] eqn:E; [|by left].
  right. apply search_sound in E as (pre & post & _ & Hm); [|reflexivity].
  cbn [from_option id]. split.
  - by apply (phoneRegex_match (lastOr None pre) found post).
  - by apply (phoneRegex_match_digits (lastOr None pre) found post).
Qed.

(** X28. A text with fewer than ten digits gives the empty phone. *)
Theorem extractContactInfo_phone_needs_digits (text : jsstring) :
  (length (List.filter Js.isDigit text) < 10)%nat ->
  phone (extractContactInfo text) = [].
Proof.
  intros Hfew. unfold extractContactInfo, matchOf. cbn [phone].
  destruct (search phoneRegex None text) as [found|] eqn:E; [|done].
  apply search_sound in E as (pre & post & Htext & Hm); [|reflexivity].
  apply phoneRegex_match_digits in Hm.
  exfalso. rewrite Htext, !count_digits_app in Hfew. lia.
Qed.

(** X29. The location field is empty, or it begins with a capital and ends
    with a comma, white space if any, and two capitals. *)
Theorem extractContactInfo_location_shape (text : jsstring) :
  location (extractContactInfo text) = []
  \/ exists u w ws s1 s2,
       location (extractContactInfo text) = u :: w ++ [44] ++ ws ++ [s1; s2]
       /\ Js.isUpper u = true
       /\ forallb Js.isWhiteSpace ws = true
       /\ Js.isUpper s1 = true /\ Js.isUpper s2 = true.
Proof.
  unfold extractContactInfo, matchOf. cbn [location].
  destruct (search locationRegex None text) as [found|] eqn:E; [|by left].
  right. apply search_sound in E as (pre & post & _ & Hm); [|reflexivity].
  unfold locationRegex in Hm.
  apply Matches_Cat_inv in Hm as (w0 & r0 & -> & Hu & Hm).
  apply Matches_Cat_inv in Hm as (w1 & r1 & -> & _ & Hm).
  apply Matches_Cat_inv in Hm as (w2 & r2 & -> & _ & Hm).
  apply Matches_Cat_inv in Hm as (comma & r3 & -> & Hc & Hm).
  apply Matches_Cat_inv in Hm as (ws & st & -> & Hws & Hst).
  apply Matches_Class_inv in Hu as (u & -> & Hu).
  apply Matches_chr_inv in Hc as ->.
  apply Matches_Class_Rep in Hws as (_ & _ & Hws).
  apply Matches_Class_Rep in Hst as (Hst1 & Hst2 & Hst3).
  specialize (Hst2 _ eq_refl).
  destruct st as [|s1 [|s2 [|s3 st]]]; simpl in Hst1, Hst2; try lia.
  simpl in Hst3. apply andb_prop in Hst3 as [Hs1 Hs2].
  apply andb_prop in Hs2 as [Hs2 _].
  exists u, (w1 ++ w2), ws, s1, s2. simpl. rewrite <- !app_assoc. done.
Qed.

End ContactFacts.

(** X25 on a text with a phone number only. *)
Lemma extractContactInfo_email_needs_at_witness :
  Contact.email (Contact.extractContactInfo (js "Jane Doe\n555 123 4567")) = [].
Proof.
  apply (extractContactInfo_email_needs_at (js "Jane Doe\n555 123 4567")).
  vm_compute. intros H. apply list_elem_of_In in H. simpl in H.
  repeat (destruct H as [H|H]; [discriminate H|]). exact H.
Defined.

(** X28 on a text with a year and a short number. *)
Lemma extractContactInfo_phone_needs_digits_witness :
  Contact.phone (Contact.extractContactInfo (js "Jane Doe, 2020, ext. 4567")) = [].
Proof.
  apply (extractContactInfo_phone_needs_digits (js "Jane Doe, 2020, ext. 4567")).
  vm_compute. lia.
Defined.
